(** * RepoAnalyser: the bounded repository-content collector

    A shallow embedding of [services/githubService.ts] (the admission
    filter, the priority and role classifier, the recursive content walk
    [fetchAllFilesRecursive] and the aggregation in [fetchRepoData]), of the
    URL helper [parseGithubUrl], of its caller [handleAnalyze] and of the
    file selection and [formatCodeFiles] of [analyzeRepository] in
    [services/geminiService.ts], followed by the properties that the
    specification states of them and by further properties of the code.

    Conventions of the embedding.
    - JavaScript strings are [string]s; paths are taken to be ASCII text, so
      [toLowerCase] is the ASCII lower-casing and the [/i] flag of the
      regular expressions compares lower-cased characters.
    - The JavaScript numbers that occur (sizes, sums of sizes, HTTP status
      codes) are integers, modelled in [Z]; array lengths are [nat].
    - The network is the environment: every listing entry carries the
      response that the request issued for it receives, and every request
      the walk issues is appended to a log.  Listing entries are well typed
      (a name, a path and, for a file, a size).
    - Of [fetchRepoData] the metadata request, the walk, the aggregation and
      the read of the owner in the [return] statement are embedded.  The
      README, languages, commits, branches and pull
      request steps and the display-only structure walk each catch their own
      errors and feed none of the fields modelled here; they are left out,
      and so are their requests.
    - The structure walk [fetchFileStructureRecursive] and
      [detectCICDConfigs], which reads its result, are embedded on their
      own, the walk with a request log of its own.  *)

From Stdlib Require Import ZArith List String Ascii Bool Lia Permutation.
From Stdlib Require Import Sorting.Sorted.
From Stdlib Require Import DecimalString.
Import ListNotations.

Open Scope string_scope.
Open Scope list_scope.
Open Scope Z_scope.

(** ** String primitives of the platform *)

Module Js.

Definition lowerAscii (c : ascii) : ascii :=
  let n := nat_of_ascii c in
  if ((65 <=? n) && (n <=? 90))%nat then ascii_of_nat (n + 32) else c.

(** [s.toLowerCase()] *)
Fixpoint toLowerCase (s : string) : string :=
  match s with
  | EmptyString => EmptyString
  | String c r => String (lowerAscii c) (toLowerCase r)
  end.

(** [s.split(sep)] for a one-character separator. *)
Fixpoint split (sep : ascii) (s : string) : list string :=
  match s with
  | EmptyString => [EmptyString]
  | String c r =>
      if Ascii.eqb c sep then EmptyString :: split sep r
      else match split sep r with
           | [] => [String c EmptyString]
           | h :: t => String c h :: t
           end
  end.

(** [s.startsWith(p)] *)
Fixpoint startsWith (p s : string) : bool :=
  match p, s with
  | EmptyString, _ => true
  | String _ _, EmptyString => false
  | String a p', String b s' => Ascii.eqb a b && startsWith p' s'
  end.

(** [s.includes(sub)] *)
Fixpoint includes (sub s : string) : bool :=
  startsWith sub s ||
  match s with
  | EmptyString => false
  | String _ r => includes sub r
  end.

(** [s.lastIndexOf(c)]: the scan keeps the last position seen, [-1] when
    there is none. *)
Fixpoint lastIndexOf_from (c : ascii) (s : string) (i last : Z) : Z :=
  match s with
  | EmptyString => last
  | String d r => lastIndexOf_from c r (i + 1) (if Ascii.eqb d c then i else last)
  end.

Definition lastIndexOf (c : ascii) (s : string) : Z := lastIndexOf_from c s 0 (-1).

Fixpoint drop (n : nat) (s : string) : string :=
  match n, s with
  | O, _ => s
  | S _, EmptyString => EmptyString
  | S n', String _ r => drop n' r
  end.

(** [s.substring(start)]: a negative start counts as 0. *)
Definition substring (start : Z) (s : string) : string :=
  drop (Z.to_nat (Z.max 0 start)) s.

(** [set.has(x)] and [array.some(p)] *)
Definition has (set : list string) (x : string) : bool :=
  existsb (String.eqb x) set.

Definition some {A : Type} (p : A -> bool) (l : list A) : bool := existsb p l.

(** [Boolean(s)] for a string: only the empty string is falsy. *)
Definition truthy (s : string) : bool :=
  match s with EmptyString => false | _ => true end.

(** [s.repeat(n)] *)
Fixpoint repeatNat (s : string) (n : nat) : string :=
  match n with
  | O => EmptyString
  | S n' => (s ++ repeatNat s n')%string
  end.

Definition repeat (s : string) (n : Z) : string := repeatNat s (Z.to_nat n).

(** [array.join(sep)] *)
Fixpoint join (sep : string) (l : list string) : string :=
  match l with
  | [] => EmptyString
  | [x] => x
  | x :: rest => (x ++ sep ++ join sep rest)%string
  end.

(** [s.substring(0, n)] *)
Fixpoint take (n : nat) (s : string) : string :=
  match n, s with
  | O, _ => EmptyString
  | S _, EmptyString => EmptyString
  | S n', String c r => String c (take n' r)
  end.

(** The line feed, [\n]. *)
Definition newline : string := String (ascii_of_nat 10) EmptyString.

(** [String(n)] for an integer. *)
Definition numberToString (n : Z) : string :=
  NilZero.string_of_int (Z.to_int n).

End Js.

(** ** Regular expressions of the source

    Every pattern of the source is a sequence of groups, each group an
    alternation of literals, optionally anchored at the start ([^]) and at
    the end ([$]), with the [i] flag.  [test] is [RegExp.prototype.test]
    on that fragment: alternatives are tried in turn with backtracking, and
    an unanchored pattern is tried at every position. *)

Module Re.

Record t := mk { anchorStart : bool; groups : list (list string); anchorEnd : bool }.

(** Strip literal [lit] from the front of [s], comparing case-insensitively. *)
Fixpoint eat (lit s : string) : option string :=
  match lit, s with
  | EmptyString, _ => Some s
  | String _ _, EmptyString => None
  | String a lit', String b s' =>
      if Ascii.eqb (Js.lowerAscii a) (Js.lowerAscii b) then eat lit' s' else None
  end.

Fixpoint matchHere (gs : list (list string)) (toEnd : bool) (s : string) : bool :=
  match gs with
  | [] => if toEnd then negb (Js.truthy s) else true
  | alts :: rest =>
      existsb (fun lit => match eat lit s with
                          | Some s' => matchHere rest toEnd s'
                          | None => false
                          end) alts
  end.

Fixpoint matchAnywhere (gs : list (list string)) (toEnd : bool) (s : string) : bool :=
  matchHere gs toEnd s ||
  match s with
  | EmptyString => false
  | String _ r => matchAnywhere gs toEnd r
  end.

Definition test (re : t) (s : string) : bool :=
  if anchorStart re then matchHere (groups re) (anchorEnd re) s
  else matchAnywhere (groups re) (anchorEnd re) s.

End Re.

(** ** Constants of [githubService.ts] *)

Definition GITHUB_API_BASE : string := "https://api.github.com/repos".

Definition MAX_FILE_SIZE : Z := 1024 * 1024.
Definition MAX_TOTAL_CODE_SIZE : Z := 10 * 1024 * 1024.
Definition MAX_FILES_TO_ANALYZE : nat := 500.

Definition SKIP_EXTENSIONS : list string :=
  [ ".png"; ".jpg"; ".jpeg"; ".gif"; ".svg"; ".ico"; ".webp"; ".bmp";
    ".pdf"; ".zip"; ".tar"; ".gz"; ".rar"; ".7z";
    ".exe"; ".dll"; ".so"; ".dylib"; ".bin";
    ".woff"; ".woff2"; ".ttf"; ".eot";
    ".mp4"; ".mp3"; ".avi"; ".mov"; ".wmv";
    ".pyc"; ".pyo"; ".class"; ".jar"; ".war";
    ".min.js"; ".min.css"; ".bundle.js";
    ".lock"; ".log"; ".cache" ].

Definition SKIP_DIRECTORIES : list string :=
  [ "node_modules"; ".git"; "dist"; "build"; ".next"; "out";
    "coverage"; ".nyc_output"; ".cache"; ".vscode"; ".idea";
    "vendor"; "__pycache__"; ".pytest_cache"; ".mypy_cache";
    "target"; ".gradle"; ".idea"; "venv"; "env"; ".venv";
    "bower_components"; ".sass-cache"; ".parcel-cache" ].

Definition HIGH_PRIORITY_PATTERNS : list Re.t :=
  [ Re.mk true [["src"; "lib"; "app"; "components"; "pages"; "routes";
                 "controllers"; "services"; "models"; "utils"; "helpers"]] false;
    Re.mk false [["."]; ["ts"; "tsx"; "js"; "jsx"; "py"; "java"; "go"; "rs"; "rb";
                         "php"; "cs"; "cpp"; "c"; "h"; "swift"; "kt"; "scala"]] true;
    Re.mk true [["package.json"; "requirements.txt"; "pom.xml"; "build.gradle";
                 "Cargo.toml"; "go.mod"; "Gemfile"; "composer.json"]] true;
    Re.mk true [["dockerfile"; "docker-compose"; ".env.example"; ".gitignore";
                 ".eslintrc"; ".prettierrc"]] true ].

Definition CONFIG_PATTERNS : list Re.t :=
  [ Re.mk true [["package.json"; "tsconfig"; "webpack"; "vite"; "rollup"; "babel";
                 "eslint"; "prettier"; "jest"; "vitest"; "cypress"; "playwright"]] false;
    Re.mk false [["."]; ["config"; "conf"; "ini"; "yaml"; "yml"; "toml"; "json"]] true;
    Re.mk true [["dockerfile"; "docker-compose"; ".env"; ".gitignore"; ".npmrc";
                 ".nvmrc"]] true ].

Definition TEST_PATTERNS : list Re.t :=
  [ Re.mk false [["test"; "spec"]; ["."];
                 ["js"; "ts"; "jsx"; "tsx"; "py"; "java"; "go"; "rb"]] true;
    Re.mk false [["."]; ["test"; "spec"]; ["."];
                 ["js"; "ts"; "jsx"; "tsx"; "py"; "java"; "go"; "rb"]] true;
    Re.mk true [["test"; "spec"; "tests"; "__tests__"; "__spec__"]] false ].

Definition DOC_PATTERNS : list Re.t :=
  [ Re.mk true [["readme"; "changelog"; "contributing"; "license"; "authors";
                 "credits"]] false;
    Re.mk false [["."]; ["md"; "txt"; "rst"; "adoc"]] true ].

(** ** [parseGithubUrl]

    [new URL(url)] is the platform's parser; the function is embedded over
    any such parser, [None] standing for the exception it throws.  Only the
    two properties the code reads are kept. *)

Record URL := mkURL { hostname : string; pathname : string }.

Record RepoRef := mkRepoRef { owner : string; repo : string }.

Section ParseGithubUrl.

Variable newURL : string -> option URL.

(** [urlObj.pathname.split('/').filter(Boolean)] *)
Definition pathParts (urlObj : URL) : list string :=
  filter Js.truthy (Js.split "/" (pathname urlObj)).

Definition parseGithubUrl (url : string) : option RepoRef :=
  match newURL url with
  | None => None
  | Some urlObj =>
      if negb (String.eqb (hostname urlObj) "github.com") then None
      else
        let parts := pathParts urlObj in
        if (List.length parts <? 2)%nat then None
        else Some (mkRepoRef (nth 0 parts EmptyString) (nth 1 parts EmptyString))
  end.

End ParseGithubUrl.

(** ** The admission filter *)

Definition extension (path : string) : string :=
  Js.toLowerCase (Js.substring (Js.lastIndexOf "." path) path).

Definition shouldSkipFile (path : string) (size : Z) : bool :=
  if MAX_FILE_SIZE <? size then true
  else if Js.some (Js.has SKIP_DIRECTORIES) (Js.split "/" (Js.toLowerCase path)) then true
  else if Js.has SKIP_EXTENSIONS (extension path) then true
  else if Js.includes ".min." path || Js.includes ".bundle." path
          || Js.includes ".chunk." path then true
  else false.

(** ** The priority and role classifier *)

Inductive Priority := high | medium | low.

Definition matchesAny (patterns : list Re.t) (path : string) : bool :=
  Js.some (fun pattern => Re.test pattern path) patterns.

Definition getFilePriority (path : string) : Priority :=
  if matchesAny HIGH_PRIORITY_PATTERNS path then high
  else if matchesAny CONFIG_PATTERNS path || matchesAny DOC_PATTERNS path then medium
  else low.

Definition isTestFile (path : string) : bool := matchesAny TEST_PATTERNS path.
Definition isConfigFile (path : string) : bool := matchesAny CONFIG_PATTERNS path.
Definition isDocumentationFile (path : string) : bool := matchesAny DOC_PATTERNS path.

Fixpoint lookup (key : string) (table : list (string * string)) : option string :=
  match table with
  | [] => None
  | (k, v) :: rest => if String.eqb k key then Some v else lookup key rest
  end.

Definition langMap : list (string * string) :=
  [ (".ts", "TypeScript"); (".tsx", "TypeScript"); (".js", "JavaScript");
    (".jsx", "JavaScript"); (".py", "Python"); (".java", "Java"); (".go", "Go");
    (".rs", "Rust"); (".rb", "Ruby"); (".php", "PHP"); (".cs", "C#");
    (".cpp", "C++"); (".c", "C"); (".swift", "Swift"); (".kt", "Kotlin");
    (".scala", "Scala"); (".html", "HTML"); (".css", "CSS"); (".scss", "SCSS");
    (".sass", "SASS"); (".json", "JSON"); (".yaml", "YAML"); (".yml", "YAML");
    (".xml", "XML"); (".md", "Markdown"); (".sh", "Shell"); (".sql", "SQL") ].

(** [langMap[ext]], for the keys the object literal defines. *)
Definition detectLanguage (path : string) : option string :=
  lookup (extension path) langMap.

(** ** The remote repository, as the walk sees it *)

(** What the content request for one file entry receives. *)
Inductive ContentResponse :=
| ContentNotOk                      (* [!fileResponse.ok] *)
| ContentMissing                    (* [!fileData.content] *)
| ContentThrows                     (* [fetch], [json()] or [atob] threw *)
| ContentDecoded (content : string) (* the text [atob] returned *).

#[local] Unset Elimination Schemes.

(** One entry of a directory listing.  A directory carries the answer to
    the listing request made for it: [None] when the response is not ok,
    is not an array, or the request throws. *)
Inductive Item :=
| FileItem (name path : string) (size : Z) (response : ContentResponse)
| DirItem (name path : string) (listing : option (list Item))
| OtherItem (type name path : string).
#[local] Set Elimination Schemes.

Definition Listing := option (list Item).

Record CodeFile := mkCodeFile {
  path : string;
  content : string;
  size : Z;
  language : option string;
  isTest : bool;
  isConfig : bool;
  isDocumentation : bool;
  priority : Priority
}.

Inductive Request :=
| MetadataRequest (url : string)
| ListingRequest (url : string)
| ContentRequest (url : string) (entryPath : string) (entrySize : Z).

(** [files.reduce((sum, f) => sum + f.size, 0)] *)
Definition sumSizes (files : list CodeFile) : Z :=
  fold_left (fun sum f => sum + size f) files 0.

(** ** Loops with [break] and [continue] *)

Inductive Flow (S : Type) :=
| Continue (s : S)
| Break (s : S).
Arguments Continue {S} s.
Arguments Break {S} s.

Section ForOf.
Context {A S : Type}.
Variable body : A -> S -> Flow S.

(** [for (const x of l) body] from state [s]. *)
Fixpoint forOf (l : list A) (s : S) : S :=
  match l with
  | [] => s
  | x :: rest =>
      match body x s with
      | Continue s' => forOf rest s'
      | Break s' => s'
      end
  end.

(** The loop, keeping whether it was left by [break]. *)
Fixpoint runOf (l : list A) (s : S) : Flow S :=
  match l with
  | [] => Continue s
  | x :: rest =>
      match body x s with
      | Continue s' => runOf rest s'
      | Break s' => Break s'
      end
  end.

End ForOf.

Definition flowState {S : Type} (f : Flow S) : S :=
  match f with Continue s | Break s => s end.

Definition broke {S : Type} (f : Flow S) : bool :=
  match f with Continue _ => false | Break _ => true end.


(** ** [fetchAllFilesRecursive] *)

(** The two locals of one invocation, and the request log, which is shared
    by all invocations. *)
Record WalkState := mkWalk {
  files : list CodeFile;
  totalSize : Z;
  requests : list Request
}.

Section Walk.

Variables (ownerName repoName defaultBranch : string).

Definition contentsUrl (p : string) : string :=
  (if Js.truthy p
   then GITHUB_API_BASE ++ "/" ++ ownerName ++ "/" ++ repoName ++ "/contents/" ++ p
        ++ "?ref=" ++ defaultBranch
   else GITHUB_API_BASE ++ "/" ++ ownerName ++ "/" ++ repoName ++ "/contents?ref="
        ++ defaultBranch)%string.

Definition fileUrl (p : string) : string :=
  (GITHUB_API_BASE ++ "/" ++ ownerName ++ "/" ++ repoName ++ "/contents/" ++ p
   ++ "?ref=" ++ defaultBranch)%string.

Definition collect (p : string) (sz : Z) (text : string) : CodeFile :=
  {| path := p;
     content := text;
     size := sz;
     language := detectLanguage p;
     isTest := isTestFile p;
     isConfig := isConfigFile p;
     isDocumentation := isDocumentationFile p;
     priority := getFilePriority p |}.

(** The [item.type === 'file'] branch of the loop body. *)
Definition visitFile (p : string) (sz : Z) (response : ContentResponse)
    (s : WalkState) : Flow WalkState :=
  if shouldSkipFile p sz then Continue s
  else if (MAX_FILES_TO_ANALYZE <=? List.length (files s))%nat then Break s
  else if MAX_TOTAL_CODE_SIZE <? totalSize s + sz then Continue s
  else
    let log := requests s ++ [ContentRequest (fileUrl p) p sz] in
    match response with
    | ContentDecoded text =>
        Continue (mkWalk (files s ++ [collect p sz text]) (totalSize s + sz) log)
    | _ => Continue (mkWalk (files s) (totalSize s) log)
    end.

(** The [item.type === 'dir'] branch, after the recursive call returned
    [subFiles] and left the log at [log]. *)
Definition mergeDir (subFiles : list CodeFile) (log : list Request)
    (s : WalkState) : Flow WalkState :=
  let files' := files s ++ subFiles in
  let totalSize' := sumSizes files' in
  let s' := mkWalk files' totalSize' log in
  if (MAX_FILES_TO_ANALYZE <=? List.length files')%nat || (MAX_TOTAL_CODE_SIZE <=? totalSize')
  then Break s' else Continue s'.

(** The loop body, with the recursive invocation for a directory inlined:
    fresh [files] and [totalSize], one listing request, then the loop over
    the listing. *)
Fixpoint visit (item : Item) (s : WalkState) {struct item} : Flow WalkState :=
  match item with
  | DirItem name p listing =>
      if Js.has SKIP_DIRECTORIES (Js.toLowerCase name) then Continue s
      else
        let start := mkWalk [] 0 (requests s ++ [ListingRequest (contentsUrl p)]) in
        let sub := match listing with
                   | None => start
                   | Some contents => forOf visit contents start
                   end in
        mergeDir (files sub) (requests sub) s
  | FileItem _ p sz response => visitFile p sz response s
  | OtherItem _ _ _ => Continue s
  end.

Definition fetchAllFilesRecursive (p : string) (listing : Listing)
    (log : list Request) : list CodeFile * list Request :=
  let start := mkWalk [] 0 (log ++ [ListingRequest (contentsUrl p)]) in
  let final := match listing with
               | None => start
               | Some contents => forOf visit contents start
               end in
  (files final, requests final).

End Walk.

(** ** [Array.prototype.sort]

    The platform's sort is stable; with a comparator that is a total
    preorder its result is the one of the stable insertion sort below
    ([stable_sort_unique]). *)

Section Sort.
Context {A : Type}.
Variable compare : A -> A -> Z.

Fixpoint insert (x : A) (l : list A) : list A :=
  match l with
  | [] => [x]
  | y :: rest => if compare x y <=? 0 then x :: l else y :: insert x rest
  end.

Definition sort (l : list A) : list A := fold_right insert [] l.

End Sort.

(** ** [fetchRepoData] *)

Definition priorityOrder (p : Priority) : Z :=
  match p with high => 0 | medium => 1 | low => 2 end.

Definition byPriority (a b : CodeFile) : Z :=
  priorityOrder (priority a) - priorityOrder (priority b).

(** The answer to the repository-metadata request.  The body of a
    successful response is read twice: its [default_branch] at once, and
    [owner.login] in the [return] statement, after every other step.
    [MetaThrows]: the request threw, or the body could not be read as far as
    its default branch.  [MetaOk]: a successful response whose body has an
    [owner] object.  [MetaOwnerless]: a successful response whose body has
    none; reading [metaJson.owner.login] then throws [message]. *)
Inductive MetaResponse :=
| MetaThrows (message : string)
| MetaNotOk (status : Z) (statusText : string)
| MetaOk (default_branch : option string)
| MetaOwnerless (default_branch : option string) (message : string).

Record Remote := mkRemote {
  metadata : MetaResponse;
  rootListing : Listing
}.

(** The fields of [RepoMetadata] that the collection computes. *)
Record RepoMetadata := mkRepoMetadata {
  defaultBranchOf : string;
  codeFiles : list CodeFile;
  totalCodeSize : Z;
  filesAnalyzed : nat;
  filesSkipped : Z
}.

Inductive Outcome (A : Type) :=
| Returned (a : A)
| Threw (message : string).
Arguments Returned {A} a.
Arguments Threw {A} message.

Definition repoUrl (o r : string) : string :=
  (GITHUB_API_BASE ++ "/" ++ o ++ "/" ++ r)%string.

Definition branchOrMain (default_branch : option string) : string :=
  match default_branch with
  | Some b => if Js.truthy b then b else "main"
  | None => "main"
  end.

(** The files the walk returns for a repository, before sorting. *)
Definition allCodeFiles (o r : string) (remote : Remote) (branch : string)
    (log : list Request) : list CodeFile * list Request :=
  fetchAllFilesRecursive o r branch EmptyString (rootListing remote) log.

Definition fetchRepoData (o r : string) (remote : Remote)
    : Outcome RepoMetadata * list Request :=
  let log := [MetadataRequest (repoUrl o r)] in
  match metadata remote with
  | MetaThrows message => (Threw message, log)
  | MetaNotOk status statusText =>
      if status =? 404 then (Threw "Repository not found (or private).", log)
      else if status =? 403
      then (Threw "GitHub API rate limit exceeded. Please try again later.", log)
      else (Threw ("GitHub API Error: " ++ statusText)%string, log)
  | MetaOk default_branch =>
      let branch := branchOrMain default_branch in
      let (walked, log') := allCodeFiles o r remote branch log in
      let sorted := sort byPriority walked in
      let kept := firstn MAX_FILES_TO_ANALYZE sorted in
      (Returned {| defaultBranchOf := branch;
                   codeFiles := kept;
                   totalCodeSize := sumSizes kept;
                   filesAnalyzed := List.length kept;
                   filesSkipped := Z.of_nat (List.length sorted)
                                   - Z.of_nat (List.length kept) |},
       log')
  | MetaOwnerless default_branch message =>
      let branch := branchOrMain default_branch in
      let (walked, log') := allCodeFiles o r remote branch log in
      (Threw message, log')
  end.

(** ** [handleAnalyze], up to the hand-over to the analysis service *)

Inductive Analysis :=
| InvalidUrl (error : string)
| FetchError (error : string)
| Fetched (data : RepoMetadata).

Section HandleAnalyze.

Variable newURL : string -> option URL.
Variable network : string -> string -> Remote.

Definition handleAnalyze (url : string) : Analysis * list Request :=
  match parseGithubUrl newURL url with
  | None =>
      (InvalidUrl "Invalid GitHub URL. Please use format: https://github.com/owner/repo",
       [])
  | Some repoInfo =>
      match fetchRepoData (owner repoInfo) (repo repoInfo)
                          (network (owner repoInfo) (repo repoInfo)) with
      | (Returned data, log) => (Fetched data, log)
      | (Threw message, log) =>
          (FetchError (if Js.truthy message then message
                       else "An unexpected error occurred."), log)
      end
  end.

End HandleAnalyze.

(** ** The selection of [analyzeRepository]

    [new Map(entries)] keeps the position of the first entry of a key and
    the value of its last. *)

Definition Priority_eqb (p q : Priority) : bool :=
  match p, q with
  | high, high | medium, medium | low, low => true
  | _, _ => false
  end.

Fixpoint mapSet (k : string) (v : CodeFile) (m : list (string * CodeFile))
    : list (string * CodeFile) :=
  match m with
  | [] => [(k, v)]
  | (k', v') :: rest =>
      if String.eqb k' k then (k', v) :: rest else (k', v') :: mapSet k v rest
  end.

Definition newMap (entries : list (string * CodeFile)) : list (string * CodeFile) :=
  fold_left (fun m e => mapSet (fst e) (snd e) m) entries [].

Definition selectedFiles (fs : list CodeFile) : list CodeFile :=
  let highPriorityFiles :=
    firstn 50 (filter (fun f => Priority_eqb (priority f) high) fs) in
  let mediumPriorityFiles :=
    firstn 30 (filter (fun f => Priority_eqb (priority f) medium) fs) in
  let configFiles := firstn 20 (filter isConfig fs) in
  let testFiles := firstn 20 (filter isTest fs) in
  highPriorityFiles ++ mediumPriorityFiles ++ configFiles ++ testFiles.

Definition uniqueFiles (fs : list CodeFile) : list CodeFile :=
  map snd (newMap (map (fun f => (path f, f)) (selectedFiles fs))).

(** ** A URL parser to run the examples with

    [SimpleUrl.parse] reads URLs of the shape
    [scheme://[userinfo@]host[:port][/path][?query][#fragment]], on which it
    agrees with the platform's parser as long as the path has no dot
    segments and nothing needs percent-encoding: the host is lower-cased,
    an empty path reads as [/].  Anything else is refused. *)

Module SimpleUrl.

Fixpoint breakAt (stop : ascii -> bool) (s : string) : string * string :=
  match s with
  | EmptyString => (EmptyString, EmptyString)
  | String c r =>
      if stop c then (EmptyString, s)
      else let (a, b) := breakAt stop r in (String c a, b)
  end.

Definition isLetter (c : ascii) : bool :=
  let n := nat_of_ascii (Js.lowerAscii c) in ((97 <=? n) && (n <=? 122))%nat.

Definition isDigit (c : ascii) : bool :=
  let n := nat_of_ascii c in ((48 <=? n) && (n <=? 57))%nat.

Fixpoint all (p : ascii -> bool) (s : string) : bool :=
  match s with
  | EmptyString => true
  | String c r => p c && all p r
  end.

Definition isSchemeChar (c : ascii) : bool :=
  isLetter c || isDigit c || Ascii.eqb c "+" || Ascii.eqb c "-" || Ascii.eqb c ".".

Definition validScheme (s : string) : bool :=
  match s with
  | EmptyString => false
  | String c r => isLetter c && all isSchemeChar r
  end.

(** The part of the authority after the last [@]. *)
Fixpoint afterUserinfo (s : string) : string :=
  match s with
  | EmptyString => EmptyString
  | String c r =>
      if Js.includes "@" s
      then afterUserinfo r
      else s
  end.

Definition parse (s : string) : option URL :=
  let (scheme, rest) := breakAt (Ascii.eqb ":") s in
  if validScheme scheme && Js.startsWith "://" rest then
    let afterSlashes := Js.drop 3 rest in
    let (authority, tail) :=
      breakAt (fun c => Ascii.eqb c "/" || Ascii.eqb c "?" || Ascii.eqb c "#")
              afterSlashes in
    let (host, port) := breakAt (Ascii.eqb ":") (afterUserinfo authority) in
    let (p, _) := breakAt (fun c => Ascii.eqb c "?" || Ascii.eqb c "#") tail in
    if Js.truthy host && all isDigit (Js.drop 1 port)
    then Some (mkURL (Js.toLowerCase host) (if Js.truthy p then p else "/"))
    else None
  else None.

End SimpleUrl.

(** ** [fetchFileStructureRecursive] and what [fetchRepoData] reads off it

    The lines of the structure carry two pictographs; a string that is not
    ASCII is held as its UTF-8 bytes. *)

(** U+1F4C1, the folder, and U+1F4C4, the page. *)
Definition folderSign : string :=
  String (ascii_of_nat 240) (String (ascii_of_nat 159)
    (String (ascii_of_nat 147) (String (ascii_of_nat 129) EmptyString))).

Definition pageSign : string :=
  String (ascii_of_nat 240) (String (ascii_of_nat 159)
    (String (ascii_of_nat 147) (String (ascii_of_nat 132) EmptyString))).

Definition dirLine (depth : Z) (name : string) : string :=
  (Js.repeat "  " depth ++ folderSign ++ " " ++ name ++ "/")%string.

Definition fileLine (depth : Z) (name : string) : string :=
  (Js.repeat "  " depth ++ pageSign ++ " " ++ name)%string.

Section StructureWalk.

Variables (ownerName repoName defaultBranch : string).
Variable maxDepth : Z.

(** One iteration of the loop over a listing, at depth [currentDepth]; the
    recursive invocation for a directory is inlined, with its depth check
    and its listing request. *)
Fixpoint structureEntry (currentDepth : Z) (item : Item)
    (acc : list string * list Request) {struct item} : list string * list Request :=
  match item with
  | DirItem name p listing =>
      if Js.has SKIP_DIRECTORIES (Js.toLowerCase name) then acc
      else
        let structure := fst acc ++ [dirLine currentDepth name] in
        if currentDepth <? maxDepth - 1 then
          if maxDepth <=? currentDepth + 1 then (structure, snd acc)
          else
            let log := snd acc
                       ++ [ListingRequest (contentsUrl ownerName repoName defaultBranch p)] in
            match listing with
            | None => (structure, log)
            | Some contents =>
                let sub := fold_left (fun a i => structureEntry (currentDepth + 1) i a)
                                     contents ([], log) in
                (structure ++ fst sub, snd sub)
            end
        else (structure, snd acc)
  | FileItem name _ _ _ => (fst acc ++ [fileLine currentDepth name], snd acc)
  | OtherItem _ name _ => (fst acc ++ [fileLine currentDepth name], snd acc)
  end.

Definition fetchFileStructureRecursive (p : string) (listing : Listing)
    (currentDepth : Z) (log : list Request) : list string * list Request :=
  if maxDepth <=? currentDepth then ([], log)
  else
    let log' := log ++ [ListingRequest (contentsUrl ownerName repoName defaultBranch p)] in
    match listing with
    | None => ([], log')
    | Some contents =>
        fold_left (fun a i => structureEntry currentDepth i a) contents ([], log')
    end.

End StructureWalk.

(** [fileStructure.filter(f => f.includes(page)).length] *)
Definition totalFiles (fileStructure : list string) : nat :=
  List.length (filter (Js.includes pageSign) fileStructure).

Definition cicdPatterns : list string :=
  [ ".github/workflows"; ".gitlab-ci.yml"; ".circleci"; "Jenkinsfile";
    ".travis.yml"; "azure-pipelines.yml"; "bitbucket-pipelines.yml"; ".drone.yml" ].

Record CICD := mkCICD { hasCICD : bool; configs : list string }.

Definition detectCICDConfigs (fileStructure : list string) : CICD :=
  let structureStr := Js.join Js.newline fileStructure in
  let found :=
    fold_left (fun cs pattern =>
                 if Js.includes pattern structureStr then cs ++ [pattern] else cs)
              cicdPatterns [] in
  mkCICD (0 <? List.length found)%nat found.

(** ** [formatCodeFiles] of [analyzeRepository] *)

Definition priorityName (p : Priority) : string :=
  match p with high => "high" | medium => "medium" | low => "low" end.

(** The excerpt of a content: its first 2000 characters and a marker when
    it is longer. *)
Definition excerpt (text : string) : string :=
  if (2000 <? String.length text)%nat
  then (Js.take 2000 text ++ Js.newline ++ "... [truncated]")%string
  else text.

Definition fileSection (file : CodeFile) : string :=
  (Js.newline ++ "--- FILE: " ++ path file ++ " ("
   ++ (match language file with
       | Some l => if Js.truthy l then l else "Unknown"
       | None => "Unknown"
       end)
   ++ ", " ++ Js.numberToString (size file) ++ " bytes, Priority: "
   ++ priorityName (priority file) ++ ") ---" ++ Js.newline
   ++ excerpt (content file) ++ Js.newline)%string.

Record Formatting := mkFormatting { totalChars : Z; formatted : list string }.

Definition formatStep (maxChars : Z) (file : CodeFile) (s : Formatting)
    : Flow Formatting :=
  if maxChars <=? totalChars s then Break s
  else
    let section := fileSection file in
    if maxChars <? totalChars s + Z.of_nat (String.length section) then Break s
    else Continue (mkFormatting (totalChars s + Z.of_nat (String.length section))
                                (formatted s ++ [section])).

Definition formattedSections (fs : list CodeFile) (maxChars : Z) : list string :=
  formatted (forOf (formatStep maxChars) fs (mkFormatting 0 [])).

Definition formatCodeFiles (fs : list CodeFile) (maxChars : Z) : string :=
  Js.join Js.newline (formattedSections fs maxChars).

(** The text that [analyzeRepository] puts in the prompt. *)
Definition codeContentForAnalysis (fs : list CodeFile) : string :=
  formatCodeFiles (uniqueFiles fs) 150000.

(** * Vocabulary of the properties *)

(** ** Order and tiers *)

Definition inOrder {A : Type} (compare : A -> A -> Z) (x y : A) : Prop :=
  compare x y <= 0.

Definition hasPriority (t : Priority) (f : CodeFile) : bool :=
  Priority_eqb (priority f) t.

(** The tier of [a] does not come after the tier of [b]: high comes before
    medium, and medium before low. *)
Definition tierOrder (a b : CodeFile) : Prop :=
  match priority a, priority b with
  | high, _ => True
  | medium, high => False
  | medium, _ => True
  | low, low => True
  | low, _ => False
  end.

(** ** The two ceilings *)

Definition accounted (s : WalkState) : Prop := totalSize s = sumSizes (files s).

Definition withinCeilings (s : WalkState) : Prop :=
  accounted s /\ sumSizes (files s) <= MAX_TOTAL_CODE_SIZE
  /\ (List.length (files s) <= MAX_FILES_TO_ANALYZE)%nat.

(** An entry that starts no recursive invocation. *)
Definition noWalkedDir (item : Item) : Prop :=
  match item with
  | DirItem name _ _ => Js.has SKIP_DIRECTORIES (Js.toLowerCase name) = true
  | _ => True
  end.

(** ** Failed fetches *)

Definition sameLocals (s s' : WalkState) : Prop :=
  files s = files s' /\ totalSize s = totalSize s'.

Definition sameFlow (f f' : Flow WalkState) : Prop :=
  broke f = broke f' /\ sameLocals (flowState f) (flowState f').

Definition failed (response : ContentResponse) : Prop :=
  forall text, response <> ContentDecoded text.

(** [failsDuring o r b s t t']: in the loop over listing [t] started in
    state [s], the content request of one file entry, at any depth, is
    issued and fails; [t'] is [t] without that entry.  The request is issued
    when the log of the loop up to and including the entry is the log of
    the loop up to the entry, followed by that request. *)
Inductive failsDuring (o r b : string) : WalkState -> list Item -> list Item -> Prop :=
| fails_here s pre name p sz response post :
    failed response ->
    requests (forOf (visit o r b) (pre ++ [FileItem name p sz response]) s)
    = requests (forOf (visit o r b) pre s) ++ [ContentRequest (fileUrl o r b p) p sz] ->
    failsDuring o r b s (pre ++ FileItem name p sz response :: post) (pre ++ post)
| fails_below s s1 pre name p sub sub' post :
    runOf (visit o r b) pre s = Continue s1 ->
    Js.has SKIP_DIRECTORIES (Js.toLowerCase name) = false ->
    failsDuring o r b
      (mkWalk [] 0 (requests s1 ++ [ListingRequest (contentsUrl o r b p)])) sub sub' ->
    failsDuring o r b s (pre ++ DirItem name p (Some sub) :: post)
                        (pre ++ DirItem name p (Some sub') :: post).

(** The state in which [fetchRepoData] has the root listing walked. *)
Definition rootState (o r b : string) : WalkState :=
  mkWalk [] 0 ([MetadataRequest (repoUrl o r)]
               ++ [ListingRequest (contentsUrl o r b EmptyString)]).

(** ** The outcome of [fetchRepoData] *)

(** The files in the order the walk found them. *)
Definition discoveredFiles (o r : string) (remote : Remote) : list CodeFile :=
  match metadata remote with
  | MetaOk default_branch | MetaOwnerless default_branch _ =>
      fst (allCodeFiles o r remote (branchOrMain default_branch)
                        [MetadataRequest (repoUrl o r)])
  | _ => []
  end.

(** The metadata request failed: it threw, or it was answered with a
    status that is not a success. *)
Definition metadataFailed (m : MetaResponse) : Prop :=
  match m with
  | MetaThrows _ | MetaNotOk _ _ => True
  | MetaOk _ | MetaOwnerless _ _ => False
  end.

(** ** Path segments *)

(** A path segment: not empty, no separator inside. *)
Definition isSegment (s : string) : Prop :=
  Js.truthy s = true /\ Js.includes "/" s = false.

(** A run of separators, possibly empty. *)
Fixpoint slashes (s : string) : bool :=
  match s with
  | EmptyString => true
  | String c rest => Ascii.eqb c "/" && slashes rest
  end.

(** The path [p] has at least two non-empty segments, and its first two
    are [o] and [r]: [p] is [o] and [r] with separators before and between
    them, and what follows [r] is nothing or starts with a separator. *)
Definition firstTwoSegments (p o r : string) : Prop :=
  exists before between rest,
    p = (before ++ o ++ "/" ++ between ++ r ++ rest)%string
    /\ slashes before = true /\ slashes between = true
    /\ isSegment o /\ isSegment r
    /\ (rest = EmptyString \/ Js.startsWith "/" rest = true).

(** ** Six hundred files of one kilobyte *)

Definition eligibleKilobyte (item : Item) : Prop :=
  match item with
  | FileItem _ p sz (ContentDecoded _) => sz = 1024 /\ shouldSkipFile p sz = false
  | _ => False
  end.

Definition eligibleKilobyteb (item : Item) : bool :=
  match item with
  | FileItem _ p sz (ContentDecoded _) => (sz =? 1024) && negb (shouldSkipFile p sz)
  | _ => false
  end.

(** ** Paths that occur more than once *)

Definition withPath (p : string) (l : list CodeFile) : list CodeFile :=
  filter (fun f => String.eqb (path f) p) l.

(** The insertion-ordered map of the selection. *)
Fixpoint assoc (k : string) (m : list (string * CodeFile)) : option CodeFile :=
  match m with
  | [] => None
  | (k', v) :: rest => if String.eqb k' k then Some v else assoc k rest
  end.

(** The value of the last entry of a key. *)
Definition lastEntry (k : string) (entries : list (string * CodeFile))
    : option CodeFile :=
  fold_left (fun found e => if String.eqb (fst e) k then Some (snd e) else found)
            entries None.

(** ** Sample repositories *)

Module Sample.

Fixpoint digits (fuel n : nat) (acc : string) : string :=
  match fuel with
  | O => acc
  | S fuel' =>
      let acc' := String (ascii_of_nat (48 + Nat.modulo n 10)) acc in
      if (n <=? 9)%nat then acc' else digits fuel' (Nat.div n 10) acc'
  end.

(** A file entry [f<n><ext>] of the given size whose content request
    succeeds. *)
Definition numbered (ext : string) (sz : Z) (n : nat) : Item :=
  let name := ("f" ++ digits 10 n EmptyString ++ ext)%string in
  FileItem name name sz (ContentDecoded "x").

Definition ok (contents : list Item) : Remote :=
  mkRemote (MetaOk (Some "main")) (Some contents).

(** Scenario A of the specification. *)
Definition scenarioA (readme bundle app : string) : Remote :=
  ok [ FileItem "README.md" "README.md" 1024 (ContentDecoded readme);
       DirItem "dist" "dist"
         (Some [FileItem "bundle.min.js" "dist/bundle.min.js" (500 * 1024)
                         (ContentDecoded bundle)]);
       DirItem "src" "src"
         (Some [FileItem "app.ts" "src/app.ts" 2048 (ContentDecoded app)]) ].

(** Scenario B: six hundred source files of 1 KB in the root listing. *)
Definition scenarioB : list Item := map (numbered ".ts" 1024) (seq 0 600).

(** Scenario C: one file of 1 MiB + 1 byte. *)
Definition scenarioC : Remote :=
  ok [FileItem "big.ts" "big.ts" (1024 * 1024 + 1) (ContentDecoded "x")].

(** A file entry whose path runs through a dependency directory, in a
    listing that is walked. *)
Definition vendored : Remote :=
  ok [ DirItem "packages" "packages"
         (Some [FileItem "index.js" "packages/Node_Modules/index.js" 10
                         (ContentDecoded "x")]) ].





(** Two entries of one listing with the same path. *)
Definition duplicated : Remote :=
  ok [ FileItem "a.ts" "a.ts" 10 (ContentDecoded "one");
       FileItem "a.ts" "a.ts" 10 (ContentDecoded "two") ].

(** Five hundred style sheets, and a directory to list after them. *)
Definition styleSheets : list Item := map (numbered ".css" 10) (seq 0 500).

Definition lateDir : Item :=
  DirItem "zz" "zz" (Some [FileItem "late.ts" "zz/late.ts" 10 (ContentDecoded "x")]).

(** One file, and a successful metadata response whose body has no
    owner. *)
Definition ownerless : Remote :=
  mkRemote (MetaOwnerless (Some "main")
                          "Cannot read properties of undefined (reading 'login')")
           (Some [FileItem "a.ts" "a.ts" 10 (ContentDecoded "x")]).

End Sample.

(** ** Vocabulary of the further properties *)

(** *** Extensions *)

(** The text after the last dot, when there is a dot. *)
Fixpoint afterLastDot (s : string) : option string :=
  match s with
  | EmptyString => None
  | String c r =>
      match afterLastDot r with
      | Some suffix => Some suffix
      | None => if Ascii.eqb c "." then Some r else None
      end
  end.

(** *** Patterns and languages *)

(** The patterns that are anchored at both ends. *)
Definition wholeNamePatterns : list Re.t :=
  filter (fun re => Re.anchorStart re && Re.anchorEnd re)
         (HIGH_PRIORITY_PATTERNS ++ CONFIG_PATTERNS ++ TEST_PATTERNS ++ DOC_PATTERNS).

(** The languages of [langMap] that are programming languages. *)
Definition programmingLanguages : list string :=
  [ "TypeScript"; "JavaScript"; "Python"; "Java"; "Go"; "Rust"; "Ruby"; "PHP";
    "C#"; "C++"; "C"; "Swift"; "Kotlin"; "Scala" ].

(** *** The tree that the walk reads *)

(** What the walk can reach: the file entries of a listing and of the
    listings below it, in depth-first order, those under a skip-listed
    directory name left out. *)
Fixpoint entriesOf (item : Item) : list (string * Z * ContentResponse) :=
  match item with
  | FileItem _ p sz response => [(p, sz, response)]
  | DirItem name _ (Some contents) =>
      if Js.has SKIP_DIRECTORIES (Js.toLowerCase name) then []
      else flat_map entriesOf contents
  | _ => []
  end.

Definition listingEntries (listing : Listing) : list (string * Z * ContentResponse) :=
  match listing with
  | Some contents => flat_map entriesOf contents
  | None => []
  end.

Definition fileInfo (f : CodeFile) : string * Z * ContentResponse :=
  (path f, size f, ContentDecoded (content f)).

(** [Subseq l l']: [l] is [l'] with some elements left out. *)
Inductive Subseq {A : Type} : list A -> list A -> Prop :=
| subseq_nil : Subseq [] []
| subseq_skip x l l' : Subseq l l' -> Subseq l (x :: l')
| subseq_keep x l l' : Subseq l l' -> Subseq (x :: l) (x :: l').

(** From [s] to [s'] the walk added files of [entries], in their order,
    each with its content request. *)
Definition comesFrom (o r b : string) (entries : list (string * Z * ContentResponse))
    (s s' : WalkState) : Prop :=
  exists found more,
    files s' = files s ++ found
    /\ requests s' = requests s ++ more
    /\ Subseq (map fileInfo found) entries
    /\ Forall (fun f => f = collect (path f) (size f) (content f)
                        /\ In (ContentRequest (fileUrl o r b (path f)) (path f) (size f))
                              more) found.

(** The address of a request. *)
Definition requestUrl (request : Request) : string :=
  match request with
  | MetadataRequest url => url
  | ListingRequest url => url
  | ContentRequest url _ _ => url
  end.

(** From [s] to [s'] requests were added, each of them in [R]. *)
Definition asksOnly (R : Request -> Prop) (s s' : WalkState) : Prop :=
  exists more, requests s' = requests s ++ more /\ Forall R more.

(** The files that the walk returned and [slice] leaves out. *)
Definition droppedFiles (o r : string) (remote : Remote) : list CodeFile :=
  skipn MAX_FILES_TO_ANALYZE (sort byPriority (discoveredFiles o r remote)).

(** *** The lines of the structure *)

(** The names of an entry and of the entries below it. *)
Fixpoint namesOf (item : Item) : list string :=
  match item with
  | FileItem name _ _ _ => [name]
  | DirItem name _ (Some contents) => name :: flat_map namesOf contents
  | DirItem name _ None => [name]
  | OtherItem _ name _ => [name]
  end.

Definition listingNames (listing : Listing) : list string :=
  match listing with
  | Some contents => flat_map namesOf contents
  | None => []
  end.

(** A line of the structure: an entry name of the tree, indented by its
    depth, with the folder sign when it is a directory, whose name then is
    not on the skip-list. *)
Definition structureLine (lo hi : Z) (names : list string) (line : string) : Prop :=
  exists depth name,
    lo <= depth < hi /\ In name names
    /\ (line = fileLine depth name
        \/ (line = dirLine depth name
            /\ Js.has SKIP_DIRECTORIES (Js.toLowerCase name) = false)).

Definition isListingRequest (request : Request) : Prop :=
  exists url, request = ListingRequest url.

(** The needle holds no line feed. *)
Fixpoint onOneLine (needle : string) : bool :=
  match needle with
  | EmptyString => true
  | String c rest => negb (Ascii.eqb c (ascii_of_nat 10)) && onOneLine rest
  end.

(** From [acc] to [acc'] lines of the structure and listing requests were
    added. *)
Definition extends (maxDepth lo : Z) (names : list string)
    (acc acc' : list string * list Request) : Prop :=
  exists lines more,
    acc' = (fst acc ++ lines, snd acc ++ more)
    /\ Forall (structureLine lo maxDepth names) lines
    /\ Forall isListingRequest more.

(** A repository with a workflow, a Travis file and a dependency
    directory. *)
Definition withWorkflow : list Item :=
  [ DirItem ".github" ".github"
      (Some [DirItem "workflows" ".github/workflows"
               (Some [FileItem "ci.yml" ".github/workflows/ci.yml" 10
                               (ContentDecoded "x")])]);
    FileItem ".travis.yml" ".travis.yml" 10 ContentNotOk;
    DirItem "node_modules" "node_modules"
      (Some [FileItem "a.js" "node_modules/a.js" 1 ContentNotOk]);
    FileItem "README.md" "README.md" 1024 (ContentDecoded "hello") ].

(** *** The selection and its sections *)

(** The keys of a list in the order of their first occurrences. *)
Fixpoint firstOccurrences (l : list string) : list string :=
  match l with
  | [] => []
  | x :: rest => x :: filter (fun y => negb (String.eqb x y)) (firstOccurrences rest)
  end.

(** The characters of the sections of the files. *)
Definition sectionChars (fs : list CodeFile) : Z :=
  fold_right (fun f n => Z.of_nat (String.length (fileSection f)) + n) 0 fs.

Definition addKey (ks : list string) (k : string) : list string :=
  if existsb (String.eqb k) ks then ks else ks ++ [k].

(** * Properties *)

Arguments Js.has : simpl never.
Arguments shouldSkipFile : simpl never.
Arguments collect : simpl never.
Arguments fileUrl : simpl never.
Arguments contentsUrl : simpl never.
Arguments mergeDir : simpl never.
Arguments visitFile : simpl never.
Arguments sumSizes : simpl never.
Arguments MAX_FILES_TO_ANALYZE : simpl never.
Arguments MAX_TOTAL_CODE_SIZE : simpl never.
Arguments MAX_FILE_SIZE : simpl never.

(** ** The definitions at work *)

Example skip_bundle : shouldSkipFile "dist/bundle.min.js" (500 * 1024) = true.
Proof. reflexivity. Qed.
Example keep_app : shouldSkipFile "src/app.ts" 2048 = false.
Proof. reflexivity. Qed.
Example ext_nodot : extension "Makefile" = "makefile".
Proof. reflexivity. Qed.
Example prio_app : getFilePriority "src/app.ts" = high.
Proof. reflexivity. Qed.
Example prio_readme : getFilePriority "README.md" = medium.
Proof. reflexivity. Qed.
Example prio_css : getFilePriority "x/style.css" = low.
Proof. reflexivity. Qed.
Example test_spec : isTestFile "src/app.spec.ts" = true.
Proof. reflexivity. Qed.

Example parse_repo :
  parseGithubUrl SimpleUrl.parse "https://github.com/owner/repo"
  = Some (mkRepoRef "owner" "repo").
Proof. reflexivity. Qed.
Example parse_tree :
  parseGithubUrl SimpleUrl.parse "https://GitHub.com:443/owner/repo/tree/main?x=1#y"
  = Some (mkRepoRef "owner" "repo").
Proof. reflexivity. Qed.
Example parse_onlyowner :
  parseGithubUrl SimpleUrl.parse "https://github.com/onlyowner" = None.
Proof. reflexivity. Qed.
Example parse_gitlab :
  parseGithubUrl SimpleUrl.parse "https://gitlab.com/owner/repo" = None.
Proof. reflexivity. Qed.
Example parse_noscheme :
  parseGithubUrl SimpleUrl.parse "github.com/owner/repo" = None.
Proof. reflexivity. Qed.

(** ** Induction on listings *)

Section ItemInduction.

Variable P : Item -> Prop.
Hypothesis file_case : forall name p sz response, P (FileItem name p sz response).
Hypothesis other_case : forall type name p, P (OtherItem type name p).
Hypothesis dir_case_none : forall name p, P (DirItem name p None).
Hypothesis dir_case_some :
  forall name p contents, Forall P contents -> P (DirItem name p (Some contents)).

Lemma Item_nested_ind : forall item, P item.
Proof.
  fix IH 1. intros [name p sz response|name p [contents|]|type name p].
  - apply file_case.
  - apply dir_case_some. revert contents.
    fix IHl 1. intros [|item rest]; constructor; [apply IH | apply IHl].
  - apply dir_case_none.
  - apply other_case.
Qed.

End ItemInduction.

(** ** Loops *)

Section ForOfFacts.
Context {A S : Type}.
Variable body : A -> S -> Flow S.

Lemma forOf_runOf l s : forOf body l s = flowState (runOf body l s).
Proof.
  revert s; induction l as [|x rest IH]; intros s; simpl; [reflexivity|].
  destruct (body x s); [apply IH | reflexivity].
Qed.

Lemma runOf_app l1 l2 s :
  runOf body (l1 ++ l2) s =
  match runOf body l1 s with
  | Continue s' => runOf body l2 s'
  | Break s' => Break s'
  end.
Proof.
  revert s; induction l1 as [|x rest IH]; intros s; simpl; [reflexivity|].
  destruct (body x s); [apply IH | reflexivity].
Qed.

(** A property kept by every iteration is kept by the loop. *)
Lemma forOf_invariant (I : S -> Prop) l :
  Forall (fun x => forall s, I s -> I (flowState (body x s))) l ->
  forall s, I s -> I (forOf body l s).
Proof.
  induction 1 as [|x rest Hx _ IH]; intros s Hs; simpl; [exact Hs|].
  specialize (Hx s Hs). destruct (body x s); simpl in Hx; [apply IH|]; exact Hx.
Qed.

End ForOfFacts.

(** ** Sums of sizes *)

Lemma fold_sizes_shift l a :
  fold_left (fun sum f => sum + size f) l a = a + sumSizes l.
Proof.
  unfold sumSizes. revert a; induction l as [|f l IH]; intros a; simpl; [lia|].
  rewrite (IH (a + size f)), (IH (size f)). lia.
Qed.

Lemma sumSizes_cons f l : sumSizes (f :: l) = size f + sumSizes l.
Proof. unfold sumSizes at 1; simpl. rewrite fold_sizes_shift. lia. Qed.

Lemma sumSizes_app l1 l2 : sumSizes (l1 ++ l2) = sumSizes l1 + sumSizes l2.
Proof.
  induction l1 as [|f l1 IH]; simpl; [reflexivity|].
  rewrite !sumSizes_cons, IH. lia.
Qed.

Lemma sumSizes_nil : sumSizes [] = 0.
Proof. reflexivity. Qed.

Lemma size_collect p sz text : size (collect p sz text) = sz.
Proof. reflexivity. Qed.

Ltac sizes :=
  rewrite ?sumSizes_app, ?sumSizes_cons, ?sumSizes_nil, ?size_collect in *.


(** ** The sort *)

Section SortFacts.
Context {A : Type}.
Variable compare : A -> A -> Z.

Hypothesis compare_total : forall x y, 0 < compare x y -> compare y x <= 0.
Hypothesis compare_trans :
  forall x y z, compare x y <= 0 -> compare y z <= 0 -> compare x z <= 0.

Lemma insert_permutation x l : Permutation (insert compare x l) (x :: l).
Proof.
  induction l as [|y rest IH]; simpl; [reflexivity|].
  destruct (compare x y <=? 0); [reflexivity|].
  rewrite IH. apply perm_swap.
Qed.

Lemma sort_permutation l : Permutation (sort compare l) l.
Proof.
  induction l as [|x rest IH]; simpl; [reflexivity|].
  rewrite insert_permutation. now apply perm_skip.
Qed.

Lemma insert_ordered x l :
  StronglySorted (inOrder compare) l -> StronglySorted (inOrder compare) (insert compare x l).
Proof.
  induction 1 as [|y rest Hrest IH Hy]; simpl.
  - repeat constructor.
  - destruct (compare x y <=? 0) eqn:Hxy.
    + apply Z.leb_le in Hxy. constructor; [now constructor|].
      constructor; [exact Hxy|].
      eapply Forall_impl; [|exact Hy]. intros z Hz. now apply compare_trans with y.
    + apply Z.leb_gt in Hxy. constructor; [exact IH|].
      apply (Permutation_Forall (Permutation_sym (insert_permutation x rest))).
      constructor; [now apply compare_total | exact Hy].
Qed.

Lemma sort_ordered l : StronglySorted (inOrder compare) (sort compare l).
Proof.
  induction l as [|x rest IH]; simpl; [constructor | now apply insert_ordered].
Qed.

(** Stability: the elements of one class, that is elements that compare
    equal, keep their order. *)
Variable class : A -> bool.
Hypothesis class_equal :
  forall x y, class x = true -> class y = true -> compare x y <= 0.

Lemma filter_insert x l :
  filter class (insert compare x l) = filter class (x :: l).
Proof.
  induction l as [|y rest IH]; [reflexivity|]. simpl insert.
  destruct (compare x y <=? 0) eqn:Hxy; [reflexivity|].
  apply Z.leb_gt in Hxy. simpl in *. rewrite IH.
  destruct (class x) eqn:Hx, (class y) eqn:Hy; try reflexivity.
  specialize (class_equal x y Hx Hy). lia.
Qed.

Lemma filter_sort l : filter class (sort compare l) = filter class l.
Proof.
  induction l as [|x rest IH]; [reflexivity|].
  simpl sort. rewrite filter_insert. simpl. now rewrite IH.
Qed.

End SortFacts.

Lemma StronglySorted_firstn {A : Type} (R : A -> A -> Prop) n l :
  StronglySorted R l -> StronglySorted R (firstn n l).
Proof.
  intros H; revert n; induction H as [|x l Hl IH Hx]; intros [|n]; simpl;
    try constructor; [apply IH|].
  apply Forall_forall. intros y Hy. apply (proj1 (Forall_forall _ _) Hx).
  revert Hy. rewrite <- (firstn_skipn n l) at 2. intros Hy. apply in_or_app. now left.
Qed.

Lemma filter_firstn_prefix {A : Type} (c : A -> bool) n l :
  exists rest, filter c l = filter c (firstn n l) ++ rest.
Proof.
  exists (filter c (skipn n l)).
  rewrite <- filter_app, firstn_skipn. reflexivity.
Qed.

Lemma byPriority_total x y : 0 < byPriority x y -> byPriority y x <= 0.
Proof. unfold byPriority. lia. Qed.

Lemma byPriority_trans x y z :
  byPriority x y <= 0 -> byPriority y z <= 0 -> byPriority x z <= 0.
Proof. unfold byPriority. lia. Qed.

Lemma hasPriority_spec t f : hasPriority t f = true <-> priority f = t.
Proof. unfold hasPriority. destruct (priority f), t; simpl; split; congruence. Qed.

Lemma byPriority_class t x y :
  hasPriority t x = true -> hasPriority t y = true -> byPriority x y <= 0.
Proof.
  rewrite !hasPriority_spec. unfold byPriority. intros -> ->. lia.
Qed.

(** The table [priorityOrder] of the comparison ranks the tiers in their
    order. *)
Lemma tierOrder_rank a b :
  tierOrder a b <-> priorityOrder (priority a) <= priorityOrder (priority b).
Proof.
  unfold tierOrder. destruct (priority a), (priority b); simpl; split;
    trivial; try lia; contradiction.
Qed.

Lemma filter_none_below f l t :
  Forall (tierOrder f) l -> priorityOrder t < priorityOrder (priority f) ->
  filter (hasPriority t) l = [].
Proof.
  induction 1 as [|g l Hg _ IH]; intros Ht; [reflexivity|]. simpl.
  destruct (hasPriority t g) eqn:E; [|now apply IH].
  apply hasPriority_spec in E. apply tierOrder_rank in Hg. rewrite E in Hg. lia.
Qed.

Lemma sort_tierOrder l : StronglySorted tierOrder (sort byPriority l).
Proof.
  assert (H : StronglySorted (inOrder byPriority) (sort byPriority l))
    by (apply sort_ordered; [apply byPriority_total | apply byPriority_trans]).
  revert H. generalize (sort byPriority l).
  induction 1 as [|f k _ IH Hf]; constructor; trivial.
  eapply Forall_impl; [|exact Hf]. intros g Hg. apply tierOrder_rank.
  unfold inOrder, byPriority in Hg. lia.
Qed.

Lemma hasPriority_of f t : hasPriority t f = Priority_eqb (priority f) t.
Proof. reflexivity. Qed.

Lemma ordered_by_tier_split l :
  StronglySorted tierOrder l ->
  l = filter (hasPriority high) l ++ filter (hasPriority medium) l
      ++ filter (hasPriority low) l.
Proof.
  induction 1 as [|f l _ IH Hf]; [reflexivity|].
  pose proof (fun t => filter_none_below f l t Hf) as Hnone.
  cbn [filter]. rewrite !hasPriority_of.
  destruct (priority f) eqn:Hp; cbn [Priority_eqb].
  - simpl. now rewrite <- IH.
  - rewrite (Hnone high) in * by (simpl; lia). simpl in *. now rewrite <- IH.
  - rewrite (Hnone high), (Hnone medium) in * by (simpl; lia).
    simpl in *. now rewrite <- IH.
Qed.

(** Any stable sort by tier returns the list that [sort byPriority]
    returns: the embedding of the platform's sort does not depend on its
    algorithm. *)
Lemma stable_sort_unique l l' :
  StronglySorted tierOrder l' ->
  (forall tier, filter (hasPriority tier) l' = filter (hasPriority tier) l) ->
  l' = sort byPriority l.
Proof.
  intros Hsorted Hstable.
  rewrite (ordered_by_tier_split l' Hsorted),
    (ordered_by_tier_split _ (sort_tierOrder l)).
  rewrite !Hstable.
  now rewrite !(filter_sort byPriority _ (byPriority_class _)).
Qed.

(** ** The walk *)

Section WalkFacts.

Variables (o r b : string).

#[local] Abbreviation visit := (visit o r b).
#[local] Abbreviation visitFile := (visitFile o r b).
#[local] Abbreviation walk := (fetchAllFilesRecursive o r b).

(** The directory branch is the recursive invocation followed by the merge. *)
Lemma visit_dir name p listing s :
  visit (DirItem name p listing) s
  = if Js.has SKIP_DIRECTORIES (Js.toLowerCase name) then Continue s
    else mergeDir (fst (walk p listing (requests s)))
                  (snd (walk p listing (requests s))) s.
Proof. simpl. now destruct listing. Qed.

Lemma walk_unfold p listing log :
  walk p listing log
  = let start := mkWalk [] 0 (log ++ [ListingRequest (contentsUrl o r b p)]) in
    match listing with
    | None => ([], requests start)
    | Some contents =>
        (files (forOf visit contents start), requests (forOf visit contents start))
    end.
Proof. now destruct listing. Qed.

Lemma mergeDir_state sub log s :
  flowState (mergeDir sub log s)
  = mkWalk (files s ++ sub) (sumSizes (files s ++ sub)) log.
Proof. unfold mergeDir. now destruct (_ || _). Qed.

(** What one file entry can do to the state. *)
Lemma visitFile_cases p sz response s :
  (visitFile p sz response s = Continue s /\ shouldSkipFile p sz = true)
  \/ (visitFile p sz response s = Break s /\ shouldSkipFile p sz = false
      /\ (MAX_FILES_TO_ANALYZE <= List.length (files s))%nat)
  \/ (visitFile p sz response s = Continue s /\ shouldSkipFile p sz = false
      /\ (List.length (files s) < MAX_FILES_TO_ANALYZE)%nat
      /\ MAX_TOTAL_CODE_SIZE < totalSize s + sz)
  \/ (shouldSkipFile p sz = false
      /\ (List.length (files s) < MAX_FILES_TO_ANALYZE)%nat
      /\ totalSize s + sz <= MAX_TOTAL_CODE_SIZE
      /\ ((exists text, response = ContentDecoded text
            /\ visitFile p sz response s
               = Continue (mkWalk (files s ++ [collect p sz text]) (totalSize s + sz)
                                  (requests s ++ [ContentRequest (fileUrl o r b p) p sz])))
          \/ ((forall text, response <> ContentDecoded text)
              /\ visitFile p sz response s
                 = Continue (mkWalk (files s) (totalSize s)
                              (requests s ++ [ContentRequest (fileUrl o r b p) p sz]))))).
Proof.
  unfold visitFile. destruct (shouldSkipFile p sz); [now left|].
  destruct (MAX_FILES_TO_ANALYZE <=? _)%nat eqn:Hn.
  { apply Nat.leb_le in Hn. right; left. auto. }
  apply Nat.leb_gt in Hn.
  destruct (MAX_TOTAL_CODE_SIZE <? _) eqn:Hsz.
  { apply Z.ltb_lt in Hsz. right; right; left. auto. }
  apply Z.ltb_ge in Hsz. do 3 right. repeat split; trivial.
  destruct response; try (right; split; [discriminate | reflexivity]).
  left. eauto.
Qed.

(** Every collected file was built by [collect] from an entry that the
    filter let through, and every content request was made for such an
    entry. *)
Section Provenance.

Variable Q : CodeFile -> Prop.
Variable R : Request -> Prop.
Hypothesis collect_ok :
  forall p sz text, shouldSkipFile p sz = false -> Q (collect p sz text).
Hypothesis content_ok :
  forall p sz, shouldSkipFile p sz = false -> R (ContentRequest (fileUrl o r b p) p sz).
Hypothesis listing_ok : forall p, R (ListingRequest (contentsUrl o r b p)).

Let good (s : WalkState) : Prop := Forall Q (files s) /\ Forall R (requests s).

Lemma visit_good item : forall s, good s -> good (flowState (visit item s)).
Proof.
  induction item as [name p sz response | type name p | name p | name p contents IH]
    using Item_nested_ind; intros s [Hf Hr].
  - simpl. destruct (visitFile_cases p sz response s)
      as [[-> _]|[[-> _]|[[-> _]|(Hskip & _ & _ & [(text & _ & ->)|[_ ->]])]]];
      simpl; split; trivial; apply Forall_app; split; trivial; repeat constructor; auto.
  - now split.
  - rewrite visit_dir. destruct (Js.has _ _); [now split|].
    rewrite mergeDir_state, walk_unfold; simpl.
    rewrite app_nil_r. split; trivial.
    apply Forall_app; split; trivial. repeat constructor; auto.
  - rewrite visit_dir. destruct (Js.has _ _); [now split|].
    rewrite mergeDir_state, walk_unfold; simpl.
    set (start := mkWalk [] 0 _).
    assert (Hsub : good (forOf visit contents start)).
    { apply forOf_invariant with (I := good); [exact IH|].
      split; simpl; [constructor|].
      apply Forall_app; split; trivial. repeat constructor; auto. }
    destruct Hsub as [Hsf Hsr]. split; trivial. now apply Forall_app.
Qed.

Lemma walk_good p listing log :
  Forall R log ->
  Forall Q (fst (walk p listing log)) /\ Forall R (snd (walk p listing log)).
Proof.
  intros Hlog. rewrite walk_unfold; simpl.
  set (start := mkWalk [] 0 _).
  assert (Hstart : good start).
  { split; simpl; [constructor|]. apply Forall_app; split; trivial.
    repeat constructor; auto. }
  destruct listing as [contents|]; [|exact Hstart].
  apply (forOf_invariant visit good); trivial.
  apply Forall_forall. intros item _. apply visit_good.
Qed.

End Provenance.

End WalkFacts.

(** ** The two ceilings *)

Section Ceilings.

Variables (o r b : string).

#[local] Abbreviation visit := (visit o r b).
#[local] Abbreviation visitFile := (visitFile o r b).
#[local] Abbreviation walk := (fetchAllFilesRecursive o r b).



(** Without recursive invocations both ceilings hold throughout. *)
Lemma visit_within item s :
  noWalkedDir item -> withinCeilings s -> withinCeilings (flowState (visit item s)).
Proof.
  intros Hitem (Hacc & Hsz & Hn). destruct item as [name p sz response|name p listing|].
  - simpl. destruct (visitFile_cases o r b p sz response s)
      as [[-> _]|[[-> _]|[[-> _]|(_ & Hlt & Hle & [(text & _ & ->)|[_ ->]])]]];
      simpl; repeat split; trivial.
    + red; simpl. red in Hacc. sizes. lia.
    + red in Hacc. simpl. sizes. lia.
    + simpl. rewrite length_app; simpl. lia.
  - rewrite visit_dir. simpl in Hitem. rewrite Hitem. now repeat split.
  - now repeat split.
Qed.

Lemma walk_within p contents log :
  Forall noWalkedDir contents ->
  sumSizes (fst (walk p (Some contents) log)) <= MAX_TOTAL_CODE_SIZE
  /\ (List.length (fst (walk p (Some contents) log)) <= MAX_FILES_TO_ANALYZE)%nat.
Proof.
  intros Hflat. rewrite walk_unfold; simpl.
  apply (forOf_invariant visit withinCeilings contents).
  - eapply Forall_impl; [|exact Hflat]. intros item Hitem s. now apply visit_within.
  - repeat split; simpl; sizes; unfold MAX_TOTAL_CODE_SIZE, MAX_FILES_TO_ANALYZE; lia.
Qed.



End Ceilings.

(** ** Failed fetches

    The locals of an invocation never depend on the request log, so two
    runs can be compared entry by entry. *)

Section FailedFetch.

Variables (o r b : string).

#[local] Abbreviation visit := (visit o r b).
#[local] Abbreviation walk := (fetchAllFilesRecursive o r b).

Lemma sameLocals_refl s : sameLocals s s.
Proof. now split. Qed.

Lemma visitFile_sameFlow p sz response s s' :
  sameLocals s s' ->
  sameFlow (visitFile o r b p sz response s) (visitFile o r b p sz response s').
Proof.
  destruct s as [fs ts ls], s' as [fs' ts' ls']. intros [Hf Ht]; simpl in *; subst.
  unfold visitFile; cbn [files totalSize requests].
  destruct (shouldSkipFile p sz); [now repeat split|].
  destruct (_ <=? _)%nat; [now repeat split|].
  destruct (_ <? _); [now repeat split|].
  destruct response; now repeat split.
Qed.

Lemma mergeDir_sameFlow sub log log' s s' :
  sameLocals s s' -> sameFlow (mergeDir sub log s) (mergeDir sub log' s').
Proof.
  intros [Hf Ht]. unfold mergeDir. rewrite <- Hf.
  destruct (_ || _); now repeat split.
Qed.

Lemma runOf_sameFlow_from l :
  Forall (fun item => forall s s', sameLocals s s' ->
                        sameFlow (visit item s) (visit item s')) l ->
  forall s s', sameLocals s s' -> sameFlow (runOf visit l s) (runOf visit l s').
Proof.
  induction 1 as [|item rest Hitem _ IH]; intros s s' Hs; simpl; [now split|].
  destruct (Hitem s s' Hs) as [Hb Hl].
  destruct (visit item s), (visit item s'); simpl in *; try discriminate;
    [now apply IH | now split].
Qed.

Lemma visit_sameFlow item :
  forall s s', sameLocals s s' -> sameFlow (visit item s) (visit item s').
Proof.
  induction item as [name p sz response | type name p | name p | name p contents IH]
    using Item_nested_ind; intros s s' Hs.
  - now apply visitFile_sameFlow.
  - now split.
  - rewrite !visit_dir. destruct (Js.has _ _); [now split|].
    rewrite !walk_unfold; simpl. now apply mergeDir_sameFlow.
  - rewrite !visit_dir. destruct (Js.has _ _); [now split|].
    rewrite !walk_unfold; simpl. rewrite !forOf_runOf.
    set (start := mkWalk [] 0 _). set (start' := mkWalk [] 0 _).
    destruct (runOf_sameFlow_from contents IH start start' (sameLocals_refl _))
      as [_ [Hf _]].
    rewrite Hf. now apply mergeDir_sameFlow.
Qed.

Lemma runOf_sameFlow l s s' :
  sameLocals s s' -> sameFlow (runOf visit l s) (runOf visit l s').
Proof.
  apply runOf_sameFlow_from, Forall_forall. intros item _. apply visit_sameFlow.
Qed.

(** Two loops whose next iterations agree, followed by the same entries. *)
Lemma runOf_after f f' post :
  sameFlow f f' ->
  sameFlow (match f with Continue s => runOf visit post s | Break s => Break s end)
           (match f' with Continue s => runOf visit post s | Break s => Break s end).
Proof.
  intros [Hb Hl]. destruct f, f'; simpl in *; try discriminate;
    [now apply runOf_sameFlow | now split].
Qed.

Lemma log_grew {A : Type} (l : list A) x : l <> l ++ [x].
Proof.
  intros E. apply (f_equal (@List.length A)) in E.
  rewrite length_app in E. simpl in E. lia.
Qed.

Lemma failing_sameFlow s t t' :
  failsDuring o r b s t t' ->
  forall s', sameLocals s s' -> sameFlow (runOf visit t s) (runOf visit t' s').
Proof.
  induction 1 as [s pre name p sz response post Hfail Hlog
                 |s s1 pre name p sub sub' post Hpre Hname Hsub IH]; intros s' Hs.
  - rewrite !forOf_runOf, runOf_app in Hlog. rewrite !runOf_app.
    destruct (runOf_sameFlow pre s s' Hs) as [Hb Hl].
    destruct (runOf visit pre s) as [s1|s1], (runOf visit pre s') as [s1'|s1'];
      simpl in Hb, Hl; try discriminate; [|now split].
    cbn [runOf] in *.
    change (visit (FileItem name p sz response) s1)
      with (visitFile o r b p sz response s1) in *.
    destruct (visitFile_cases o r b p sz response s1)
      as [[E _]|[[E _]|[[E _]|(_ & _ & _ & [(text & E & _)|[_ E]])]]];
      try rewrite E in *; cbn [flowState requests] in *.
    + now destruct (log_grew _ _ Hlog).
    + now destruct (log_grew _ _ Hlog).
    + now destruct (log_grew _ _ Hlog).
    + now destruct (Hfail text).
    + apply runOf_sameFlow. exact Hl.
  - rewrite !runOf_app, Hpre.
    destruct (runOf_sameFlow pre s s' Hs) as [Hb Hl]. rewrite Hpre in Hb, Hl.
    destruct (runOf visit pre s') as [s1'|s1']; simpl in Hb, Hl; try discriminate.
    cbn [runOf]. apply runOf_after.
    rewrite !visit_dir, Hname, !walk_unfold; cbn [fst snd]. rewrite !forOf_runOf.
    set (start' := mkWalk [] 0 (requests s1' ++ _)).
    destruct (IH start' (sameLocals_refl _)) as [_ [Hf _]].
    rewrite Hf. now apply mergeDir_sameFlow.
Qed.

Lemma walk_failing t t' :
  failsDuring o r b (rootState o r b) t t' ->
  fst (walk EmptyString (Some t') [MetadataRequest (repoUrl o r)])
  = fst (walk EmptyString (Some t) [MetadataRequest (repoUrl o r)]).
Proof.
  intros Hfail. rewrite !walk_unfold; cbn [fst]. rewrite !forOf_runOf.
  destruct (failing_sameFlow _ t t' Hfail _ (sameLocals_refl _)) as [_ [Hf _]].
  symmetry. exact Hf.
Qed.

End FailedFetch.

(** ** Strings and path segments *)

Lemma has_In set x : Js.has set x = true <-> In x set.
Proof.
  unfold Js.has. rewrite existsb_exists. split.
  - intros (y & Hy & E). apply String.eqb_eq in E. now subst.
  - intros H. exists x. split; [exact H | apply String.eqb_refl].
Qed.

Lemma lowerAscii_slash c : Ascii.eqb (Js.lowerAscii c) "/" = Ascii.eqb c "/".
Proof. destruct c as [[] [] [] [] [] [] [] []]; reflexivity. Qed.

Lemma split_toLowerCase s :
  Js.split "/" (Js.toLowerCase s) = map Js.toLowerCase (Js.split "/" s).
Proof.
  induction s as [|c s IH]; [reflexivity|]. simpl.
  rewrite lowerAscii_slash, IH.
  destruct (Ascii.eqb c "/"); [reflexivity|].
  now destruct (Js.split "/" s).
Qed.

Lemma SKIP_DIRECTORIES_lower : Forall (fun d => Js.toLowerCase d = d) SKIP_DIRECTORIES.
Proof. repeat constructor. Qed.

(** A path with a skip-listed segment is refused whatever the rest is. *)
Lemma skip_listed_segment p sz seg dir :
  In seg (Js.split "/" p) -> In dir SKIP_DIRECTORIES ->
  Js.toLowerCase seg = Js.toLowerCase dir ->
  shouldSkipFile p sz = true.
Proof.
  intros Hseg Hdir E. unfold shouldSkipFile.
  destruct (MAX_FILE_SIZE <? sz); [reflexivity|].
  replace (Js.some _ _) with true; [reflexivity|].
  symmetry. unfold Js.some. apply existsb_exists.
  exists (Js.toLowerCase seg). split.
  - rewrite split_toLowerCase. now apply in_map.
  - apply has_In. rewrite E.
    now rewrite (proj1 (Forall_forall _ _) SKIP_DIRECTORIES_lower dir Hdir).
Qed.

Lemma oversized_skipped p sz : MAX_FILE_SIZE < sz -> shouldSkipFile p sz = true.
Proof.
  intros H. unfold shouldSkipFile. apply Z.ltb_lt in H. now rewrite H.
Qed.

Lemma includes_cons sub c s :
  Js.includes sub (String c s) = Js.startsWith sub (String c s) || Js.includes sub s.
Proof. reflexivity. Qed.

Lemma includes_char c d s :
  Js.includes (String c EmptyString) (String d s)
  = Ascii.eqb c d || Js.includes (String c EmptyString) s.
Proof. rewrite includes_cons. cbn [Js.startsWith]. now rewrite andb_true_r. Qed.

Lemma includes_slash_cons c s :
  Js.includes "/" (String c s) = false ->
  Ascii.eqb c "/" = false /\ Js.includes "/" s = false.
Proof.
  simpl. rewrite andb_true_r. intros H. apply orb_false_iff in H as [H1 H2].
  split; [|exact H2]. rewrite Ascii.eqb_sym. exact H1.
Qed.

Lemma split_whole s : Js.includes "/" s = false -> Js.split "/" s = [s].
Proof.
  induction s as [|c s IH]; [reflexivity|]. intros H.
  apply includes_slash_cons in H as [Hc Hs]. simpl. now rewrite Hc, (IH Hs).
Qed.

Lemma split_first s rest :
  Js.includes "/" s = false ->
  Js.split "/" (s ++ String "/" rest) = s :: Js.split "/" rest.
Proof.
  induction s as [|c s IH]; [reflexivity|]. intros H.
  apply includes_slash_cons in H as [Hc Hs]. simpl. now rewrite Hc, (IH Hs).
Qed.

Lemma append_empty s : (s ++ EmptyString)%string = s.
Proof. induction s; simpl; congruence. Qed.

(** The segments of [/o/r] followed by nothing or by [/...]. *)
Lemma pathParts_two host o r extra :
  isSegment o -> isSegment r ->
  extra = EmptyString \/ Js.startsWith "/" extra = true ->
  exists more,
    pathParts (mkURL host ("/" ++ o ++ "/" ++ r ++ extra)) = o :: r :: more.
Proof.
  intros [Ho So] [Hr Sr] Hextra. unfold pathParts; simpl pathname.
  change ("/" ++ o ++ "/" ++ r ++ extra)%string
    with (String "/" (o ++ String "/" (r ++ extra)))%string.
  cbn [Js.split]. change (Ascii.eqb "/" "/") with true. cbv iota.
  rewrite (split_first o _ So). cbn [filter Js.truthy]. rewrite Ho.
  destruct Hextra as [->|Hextra].
  - rewrite append_empty, (split_whole r Sr). cbn [filter]. rewrite Hr. eauto.
  - destruct extra as [|c extra]; [discriminate|]. cbn [Js.startsWith] in Hextra.
    apply andb_true_iff in Hextra as [Hc _]. apply Ascii.eqb_eq in Hc. subst c.
    rewrite (split_first r _ Sr). cbn [filter]. rewrite Hr. eauto.
Qed.

(** ** [fetchRepoData] *)

Lemma fetchRepoData_returned o r remote data log :
  fetchRepoData o r remote = (Returned data, log) ->
  exists default_branch,
    metadata remote = MetaOk default_branch
    /\ log = snd (allCodeFiles o r remote (branchOrMain default_branch)
                               [MetadataRequest (repoUrl o r)])
    /\ codeFiles data
       = firstn MAX_FILES_TO_ANALYZE (sort byPriority (discoveredFiles o r remote))
    /\ totalCodeSize data = sumSizes (codeFiles data)
    /\ filesAnalyzed data = List.length (codeFiles data)
    /\ filesSkipped data
       = Z.of_nat (List.length (discoveredFiles o r remote))
         - Z.of_nat (List.length (codeFiles data)).
Proof.
  unfold fetchRepoData, discoveredFiles.
  destruct (metadata remote) as [message|status statusText|default_branch
                                |default_branch message].
  - discriminate.
  - destruct (status =? 404); [discriminate|]. destruct (status =? 403); discriminate.
  - destruct (allCodeFiles _ _ _ _ _) as [walked log'] eqn:Hwalk. intros H.
    injection H as <- <-. exists default_branch. rewrite Hwalk.
    rewrite (Permutation_length (sort_permutation byPriority walked)).
    repeat split; reflexivity.
  - destruct (allCodeFiles _ _ _ _ _). discriminate.
Qed.

Lemma fetchRepoData_throws o r remote :
  (exists message log, fetchRepoData o r remote = (Threw message, log))
  <-> (forall default_branch, metadata remote <> MetaOk default_branch).
Proof.
  unfold fetchRepoData.
  destruct (metadata remote) as [message|status statusText|default_branch
                                |default_branch message].
  - split; [discriminate | eauto].
  - split; [discriminate|]. intros _.
    destruct (status =? 404); [eauto|]. destruct (status =? 403); eauto.
  - destruct (allCodeFiles _ _ _ _ _) as [walked log']. split.
    + intros (message & log & H). discriminate.
    + intros H. now destruct (H default_branch).
  - destruct (allCodeFiles _ _ _ _ _) as [walked log']. split; [discriminate | eauto].
Qed.

(** Without an owner the run is the run with one, up to its last step. *)
Lemma fetchRepoData_ownerless o r remote default_branch message :
  metadata remote = MetaOwnerless default_branch message ->
  exists data,
    fetchRepoData o r (mkRemote (MetaOk default_branch) (rootListing remote))
    = (Returned data,
       snd (fetchRepoData o r (mkRemote (MetaOk default_branch) (rootListing remote))))
    /\ fetchRepoData o r remote
       = (Threw message,
          snd (fetchRepoData o r (mkRemote (MetaOk default_branch) (rootListing remote)))).
Proof.
  intros Hmeta. unfold fetchRepoData, allCodeFiles. rewrite Hmeta.
  cbn [metadata rootListing].
  destruct (fetchAllFilesRecursive _ _ _ _ _ _) as [walked log']. cbn [snd]. eauto.
Qed.

Lemma codeFiles_incl o r remote data log :
  fetchRepoData o r remote = (Returned data, log) ->
  incl (codeFiles data) (discoveredFiles o r remote).
Proof.
  intros H. destruct (fetchRepoData_returned _ _ _ _ _ H) as (_ & _ & _ & E & _).
  rewrite E. intros f Hf.
  apply (Permutation_in _ (sort_permutation byPriority _)).
  revert Hf. generalize (sort byPriority (discoveredFiles o r remote)) as l.
  intros l Hf. rewrite <- (firstn_skipn MAX_FILES_TO_ANALYZE l).
  apply in_or_app. now left.
Qed.

(** What holds of every file the filter lets through holds of every
    returned file, and likewise for the content requests. *)
Lemma fetchRepoData_provenance (Q : CodeFile -> Prop) (R : string -> Z -> Prop)
    o r remote data log :
  (forall p sz text, shouldSkipFile p sz = false -> Q (collect p sz text)) ->
  (forall p sz, shouldSkipFile p sz = false -> R p sz) ->
  fetchRepoData o r remote = (Returned data, log) ->
  Forall Q (discoveredFiles o r remote)
  /\ Forall Q (codeFiles data)
  /\ (forall url p sz, In (ContentRequest url p sz) log -> R p sz).
Proof.
  intros HQ HR H.
  pose proof (codeFiles_incl _ _ _ _ _ H) as Hincl.
  destruct (fetchRepoData_returned _ _ _ _ _ H) as (db & Hmeta & -> & _).
  unfold discoveredFiles in *. rewrite Hmeta in *. unfold allCodeFiles in *.
  set (R' := fun req => match req with ContentRequest _ p sz => R p sz | _ => True end).
  destruct (walk_good o r (branchOrMain db) Q R' HQ) with
    (p := EmptyString) (listing := rootListing remote)
    (log := [MetadataRequest (repoUrl o r)]) as [Hf Hr]; simpl; auto.
  { repeat constructor. }
  repeat split; trivial.
  - apply Forall_forall. intros f Hin. apply (proj1 (Forall_forall _ _) Hf), Hincl, Hin.
  - intros url p sz Hin. apply (proj1 (Forall_forall _ _) Hr _ Hin).
Qed.

(** ** Six hundred eligible files of one kilobyte *)

Lemma kilobytes_collected o r b l : forall s,
  Forall eligibleKilobyte l ->
  totalSize s = 1024 * Z.of_nat (List.length (files s)) ->
  (List.length (files s) <= MAX_FILES_TO_ANALYZE)%nat ->
  List.length (files (forOf (visit o r b) l s))
  = Nat.min MAX_FILES_TO_ANALYZE (List.length (files s) + List.length l).
Proof.
  induction l as [|item rest IH]; intros s Hall Ht Hn; cbn [forOf List.length].
  { unfold MAX_FILES_TO_ANALYZE in *. lia. }
  inversion Hall as [|? ? Hitem Hrest]; subst.
  destruct item as [name p sz [| | |text]| |]; try contradiction.
  destruct Hitem as [-> Hskip]. cbn [visit].
  destruct (visitFile_cases o r b p 1024 (ContentDecoded text) s)
    as [[_ E]|[[-> (_ & H)]|[(_ & _ & _ & H)|(_ & Hlt & _ & [(text' & _ & ->)|[E _]])]]];
    cbv iota.
  - congruence.
  - unfold MAX_FILES_TO_ANALYZE in *. lia.
  - unfold MAX_FILES_TO_ANALYZE, MAX_TOTAL_CODE_SIZE in *. lia.
  - rewrite IH; trivial; cbn [files totalSize]; rewrite ?length_app; cbn [List.length];
      unfold MAX_FILES_TO_ANALYZE in *; lia.
  - now destruct (E text).
Qed.

(** ** Paths that occur more than once *)

Lemma filter_length_perm {A : Type} (c : A -> bool) l l' :
  Permutation l l' -> List.length (filter c l) = List.length (filter c l').
Proof.
  induction 1 as [|x l l' _ IH|x y l|l l' l'' _ IH1 _ IH2]; simpl; trivial.
  - destruct (c x); simpl; congruence.
  - destruct (c x), (c y); reflexivity.
  - congruence.
Qed.

Lemma filter_length_firstn {A : Type} (c : A -> bool) n l :
  (List.length (filter c (firstn n l)) <= List.length (filter c l))%nat.
Proof.
  destruct (filter_firstn_prefix c n l) as [rest ->]. rewrite length_app. lia.
Qed.

Lemma mapSet_keys k v m k' :
  In k' (map fst (mapSet k v m)) <-> k' = k \/ In k' (map fst m).
Proof.
  induction m as [|[k0 v0] rest IH]; simpl.
  - intuition.
  - destruct (String.eqb k0 k) eqn:E; simpl.
    + apply String.eqb_eq in E. subst. intuition.
    + rewrite IH. intuition.
Qed.

Lemma mapSet_NoDup k v m : NoDup (map fst m) -> NoDup (map fst (mapSet k v m)).
Proof.
  induction m as [|[k0 v0] rest IH]; simpl; intros H.
  - repeat constructor. intros [].
  - inversion H as [|? ? Hnot Hrest]; subst.
    destruct (String.eqb k0 k) eqn:E; simpl; constructor; auto.
    rewrite mapSet_keys. intros [->|Hin]; [|contradiction].
    now rewrite String.eqb_refl in E.
Qed.

Lemma assoc_mapSet k v m k' :
  assoc k' (mapSet k v m) = if String.eqb k k' then Some v else assoc k' m.
Proof.
  induction m as [|[k0 v0] rest IH]; simpl.
  - reflexivity.
  - destruct (String.eqb k0 k) eqn:E; simpl.
    + apply String.eqb_eq in E. subst. now destruct (String.eqb k k').
    + rewrite IH. destruct (String.eqb k0 k') eqn:E'; trivial.
      apply String.eqb_eq in E'. subst k0. now rewrite String.eqb_sym, E.
Qed.

Lemma assoc_In k v m : NoDup (map fst m) -> In (k, v) m -> assoc k m = Some v.
Proof.
  induction m as [|[k0 v0] rest IH]; simpl; [contradiction|].
  intros H [E|Hin]; inversion H as [|? ? Hnot Hrest]; subst.
  - injection E as -> ->. now rewrite String.eqb_refl.
  - destruct (String.eqb k0 k) eqn:E; [|auto].
    apply String.eqb_eq in E. subst. destruct Hnot.
    change k with (fst (k, v)). now apply in_map.
Qed.

Lemma fold_mapSet entries : forall m,
  NoDup (map fst m) ->
  let m' := fold_left (fun m e => mapSet (fst e) (snd e) m) entries m in
  NoDup (map fst m')
  /\ forall k, assoc k m'
       = match fold_left (fun found e => if String.eqb (fst e) k
                                         then Some (snd e) else found) entries None with
         | Some v => Some v
         | None => assoc k m
         end.
Proof.
  induction entries as [|e rest IH] using rev_ind; intros m Hm; simpl.
  - now split.
  - rewrite !fold_left_app; simpl. destruct (IH m Hm) as [Hnd Hassoc].
    split; [now apply mapSet_NoDup|].
    intros k. rewrite fold_left_app; simpl. rewrite assoc_mapSet, Hassoc.
    now destruct (String.eqb (fst e) k).
Qed.

Lemma lastEntry_split k l f :
  lastEntry k (map (fun f => (path f, f)) l) = Some f ->
  exists before after,
    l = before ++ f :: after /\ path f = k /\ Forall (fun g => path g <> k) after.
Proof.
  unfold lastEntry. induction l as [|g rest IH] using rev_ind; [discriminate|].
  rewrite map_app, fold_left_app; simpl.
  destruct (String.eqb (path g) k) eqn:E.
  - intros [= ->]. apply String.eqb_eq in E. exists rest, []. now repeat split.
  - intros H. destruct (IH H) as (before & after & -> & Hp & Hafter).
    exists before, (after ++ [g]). rewrite <- app_assoc. repeat split; trivial.
    apply Forall_app; split; trivial. repeat constructor.
    intros Hg. rewrite Hg, String.eqb_refl in E. discriminate.
Qed.

(** [uniqueFiles] keeps one file for each path, the last one selected. *)
Lemma uniqueFiles_last_wins fs :
  NoDup (map path (uniqueFiles fs))
  /\ forall f, In f (uniqueFiles fs) ->
       exists before after,
         selectedFiles fs = before ++ f :: after
         /\ Forall (fun g => path g <> path f) after.
Proof.
  unfold uniqueFiles, newMap.
  set (entries := map (fun f => (path f, f)) (selectedFiles fs)).
  destruct (fold_mapSet entries [] (NoDup_nil _)) as [Hnd Hassoc].
  set (m := fold_left _ entries []) in *.
  assert (Hkey : forall k v, In (k, v) m -> lastEntry k entries = Some v).
  { intros k v Hin. pose proof (assoc_In k v m Hnd Hin) as E.
    rewrite Hassoc in E. unfold lastEntry.
    now destruct (fold_left _ entries None). }
  assert (Hpath : forall k v, In (k, v) m -> path v = k).
  { intros k v Hin. destruct (lastEntry_split k _ v (Hkey k v Hin))
      as (_ & _ & _ & E & _). exact E. }
  split.
  - replace (map path (map snd m)) with (map fst m); [exact Hnd|].
    rewrite map_map. apply map_ext_in. intros [k v] Hin. symmetry. now apply Hpath.
  - intros f Hin. apply in_map_iff in Hin as ([k v] & <- & Hin). simpl.
    destruct (lastEntry_split k _ v (Hkey k v Hin)) as (before & after & E & Hp & Ha).
    exists before, after. split; [exact E|]. now rewrite Hp.
Qed.

(** * The statements of the specification *)

(** ** C4 *)

(** C4. A path one of whose segments is, up to letter case, an entry of
    the directory skip-list is the path of no returned file, whatever its
    extension and size; no content request is made for it either. *)
Theorem skip_listed_path_never_collected o r remote data log p seg dir :
  fetchRepoData o r remote = (Returned data, log) ->
  In seg (Js.split "/" p) ->
  In dir SKIP_DIRECTORIES ->
  Js.toLowerCase seg = Js.toLowerCase dir ->
  (forall f, In f (codeFiles data) -> path f <> p)
  /\ (forall url sz, ~ In (ContentRequest url p sz) log).
Proof.
  intros Hrun Hseg Hdir Hcase.
  destruct (fetchRepoData_provenance
              (fun f => shouldSkipFile (path f) (size f) = false)
              (fun p sz => shouldSkipFile p sz = false)
              o r remote data log) as (_ & Hfiles & Hlog); trivial.
  split.
  - intros f Hin E.
    pose proof (proj1 (Forall_forall _ _) Hfiles f Hin) as Hkept. simpl in Hkept.
    rewrite E, (skip_listed_segment p (size f) seg dir) in Hkept; trivial.
    discriminate.
  - intros url sz Hin. apply Hlog in Hin.
    rewrite (skip_listed_segment p sz seg dir) in Hin; trivial. discriminate.
Qed.

Lemma skip_listed_path_never_collected_witness :
  exists data log,
    fetchRepoData "o" "r" Sample.vendored = (Returned data, log)
    /\ (forall f, In f (codeFiles data) -> path f <> "packages/Node_Modules/index.js")
    /\ (forall url sz,
           ~ In (ContentRequest url "packages/Node_Modules/index.js" sz) log).
Proof.
  eexists; eexists; split; [reflexivity|].
  apply (skip_listed_path_never_collected "o" "r" Sample.vendored _ _
           "packages/Node_Modules/index.js" "Node_Modules" "node_modules").
  - reflexivity.
  - simpl. auto.
  - simpl. auto.
  - reflexivity.
Defined.

(** ** C6 *)

(** C6. The filter refuses every file whose declared size is above 1 MiB,
    the size 1 MiB + 1 included and the size 1 MiB alone not; the filter
    runs before the content request, so that no content request is ever
    made for an entry of such a size. *)
Theorem oversized_file_never_fetched o r remote p sz :
  MAX_FILE_SIZE < sz ->
  shouldSkipFile p sz = true
  /\ shouldSkipFile p (1024 * 1024 + 1) = true
  /\ shouldSkipFile "src/app.ts" (1024 * 1024) = false
  /\ (forall url, ~ In (ContentRequest url p sz) (snd (fetchRepoData o r remote)))
  /\ (forall data log f,
        fetchRepoData o r remote = (Returned data, log) ->
        In f (codeFiles data) -> size f <= MAX_FILE_SIZE).
Proof.
  intros Hbig. split; [now apply oversized_skipped|].
  split; [now apply oversized_skipped|]. split; [reflexivity|].
  split.
  - intros url Hin.
    destruct (fetchRepoData o r remote) as [[data|message] log] eqn:Hrun.
    + destruct (fetchRepoData_provenance (fun _ => True)
                  (fun p sz => shouldSkipFile p sz = false) o r remote data log)
        as (_ & _ & Hlog); trivial.
      apply Hlog in Hin. rewrite oversized_skipped in Hin; [discriminate | exact Hbig].
    + destruct (metadata remote) as [m|status text|db|db m] eqn:Hmeta.
      * revert Hrun Hin. unfold fetchRepoData. rewrite Hmeta.
        intros [= <- <-] [H|[]]. discriminate.
      * revert Hrun Hin. unfold fetchRepoData. rewrite Hmeta.
        destruct (status =? 404); [|destruct (status =? 403)];
          intros [= <- <-] [H|[]]; discriminate.
      * revert Hrun. unfold fetchRepoData. rewrite Hmeta.
        destruct (allCodeFiles _ _ _ _ _). discriminate.
      * destruct (fetchRepoData_ownerless o r remote db m Hmeta) as (data & Hok & Hthrown).
        rewrite Hthrown in Hrun. injection Hrun as _ <-.
        destruct (fetchRepoData_provenance (fun _ => True)
                    (fun p sz => shouldSkipFile p sz = false) o r _ data _
                    (fun _ _ _ _ => I) (fun _ _ H => H) Hok)
          as (_ & _ & Hlog).
        apply Hlog in Hin. rewrite oversized_skipped in Hin; [discriminate | exact Hbig].
  - intros data log f Hrun Hin.
    destruct (fetchRepoData_provenance
                (fun f => shouldSkipFile (path f) (size f) = false) (fun _ _ => True)
                o r remote data log) as (_ & Hfiles & _); trivial.
    pose proof (proj1 (Forall_forall _ _) Hfiles f Hin) as Hkept. simpl in Hkept.
    destruct (Z_lt_le_dec MAX_FILE_SIZE (size f)) as [Hlt|Hle]; [|exact Hle].
    rewrite oversized_skipped in Hkept; [discriminate | exact Hlt].
Qed.

Lemma oversized_file_never_fetched_witness :
  shouldSkipFile "big.ts" (1024 * 1024 + 1) = true
  /\ (forall url,
        ~ In (ContentRequest url "big.ts" (1024 * 1024 + 1))
             (snd (fetchRepoData "o" "r" Sample.scenarioC))).
Proof.
  destruct (oversized_file_never_fetched "o" "r" Sample.scenarioC "big.ts"
              (1024 * 1024 + 1)) as (H1 & _ & _ & H2 & _).
  - reflexivity.
  - exact (conj H1 H2).
Defined.

(** ** C9 *)

(** The sort puts the files of the high tier first, then those of the
    medium tier, then those of the low tier, each tier in the order given. *)
Lemma sort_by_tiers l :
  sort byPriority l
  = filter (hasPriority high) l ++ filter (hasPriority medium) l
    ++ filter (hasPriority low) l.
Proof.
  rewrite (ordered_by_tier_split _ (sort_tierOrder l)).
  now rewrite !(filter_sort byPriority _ (byPriority_class _)).
Qed.

(** C9. The returned list is ordered by tier, high before medium before
    low: it is the beginning, up to 500 files, of the files of the high tier
    followed by those of the medium tier and then those of the low tier,
    each tier in the order the walk found its files.  So the files of one
    tier are, in the order of the list, the first ones of that tier in the
    order of discovery. *)
Theorem sorted_by_priority_stable o r remote data log :
  fetchRepoData o r remote = (Returned data, log) ->
  StronglySorted tierOrder (codeFiles data)
  /\ (forall tier, exists dropped,
        filter (hasPriority tier) (discoveredFiles o r remote)
        = filter (hasPriority tier) (codeFiles data) ++ dropped)
  /\ codeFiles data
     = firstn 500 (filter (fun f => Priority_eqb (priority f) high)
                          (discoveredFiles o r remote)
                   ++ filter (fun f => Priority_eqb (priority f) medium)
                             (discoveredFiles o r remote)
                   ++ filter (fun f => Priority_eqb (priority f) low)
                             (discoveredFiles o r remote)).
Proof.
  intros Hrun.
  destruct (fetchRepoData_returned _ _ _ _ _ Hrun) as (_ & _ & _ & -> & _).
  split; [|split].
  - apply StronglySorted_firstn, sort_tierOrder.
  - intros tier.
    rewrite <- (filter_sort byPriority (hasPriority tier) (byPriority_class tier)).
    apply filter_firstn_prefix.
  - rewrite sort_by_tiers. reflexivity.
Qed.

Lemma sorted_by_priority_stable_witness :
  exists data log,
    fetchRepoData "o" "r" (Sample.scenarioA "a" "b" "c") = (Returned data, log)
    /\ map path (discoveredFiles "o" "r" (Sample.scenarioA "a" "b" "c"))
       = ["README.md"; "src/app.ts"]
    /\ map path (codeFiles data) = ["src/app.ts"; "README.md"]
    /\ map priority (codeFiles data) = [high; medium]
    /\ StronglySorted tierOrder (codeFiles data).
Proof.
  eexists; eexists; split; [reflexivity|].
  destruct (sorted_by_priority_stable "o" "r" (Sample.scenarioA "a" "b" "c")
              _ (snd (fetchRepoData "o" "r" (Sample.scenarioA "a" "b" "c"))) eq_refl)
    as (Hsorted & _ & Hfiles).
  split; [reflexivity|]. split; [now rewrite Hfiles|].
  split; [now rewrite Hfiles | exact Hsorted].
Defined.

(** ** C5 *)

Lemma getFilePriority_cases p :
  (getFilePriority p = high <-> matchesAny HIGH_PRIORITY_PATTERNS p = true)
  /\ (getFilePriority p = medium <->
      matchesAny HIGH_PRIORITY_PATTERNS p = false
      /\ (isConfigFile p = true \/ isDocumentationFile p = true))
  /\ (getFilePriority p = low <->
      matchesAny HIGH_PRIORITY_PATTERNS p = false
      /\ isConfigFile p = false /\ isDocumentationFile p = false).
Proof.
  unfold getFilePriority, isConfigFile, isDocumentationFile.
  destruct (matchesAny HIGH_PRIORITY_PATTERNS p), (matchesAny CONFIG_PATTERNS p),
    (matchesAny DOC_PATTERNS p); simpl; intuition congruence.
Qed.

(** The tier [low] is the one tier that is not free of the flags: it is
    given only where neither the configuration nor the documentation
    patterns match. *)
Remark low_priority_flags p :
  getFilePriority p = low -> isConfigFile p = false /\ isDocumentationFile p = false.
Proof. intros H. now apply getFilePriority_cases in H. Qed.

(** C5. A returned file has the one tier that [getFilePriority] gives its
    path: high when a high-priority pattern matches, otherwise medium when a
    configuration or documentation pattern matches, otherwise low.  Each
    role flag is the match of its own pattern list against the path and
    reads neither the tier nor another flag: any two flags take all four
    combinations of values, the test flag occurs set and unset in every
    tier, and the high and medium tiers occur with each flag set and unset.
    On scenario A the result is [src/app.ts], high, followed by
    [README.md], medium and flagged as documentation; the bundle is refused
    both for its directory and for the [.min.] in its name. *)
Theorem classification_tier_and_flags o r remote data log f readme bundle app :
  fetchRepoData o r remote = (Returned data, log) ->
  In f (codeFiles data) ->
  (priority f = getFilePriority (path f)
   /\ (priority f = high <-> matchesAny HIGH_PRIORITY_PATTERNS (path f) = true)
   /\ (priority f = medium <->
       matchesAny HIGH_PRIORITY_PATTERNS (path f) = false
       /\ (matchesAny CONFIG_PATTERNS (path f) = true
           \/ matchesAny DOC_PATTERNS (path f) = true))
   /\ (priority f = low <->
       matchesAny HIGH_PRIORITY_PATTERNS (path f) = false
       /\ matchesAny CONFIG_PATTERNS (path f) = false
       /\ matchesAny DOC_PATTERNS (path f) = false))
  /\ (isTest f = matchesAny TEST_PATTERNS (path f)
      /\ isConfig f = matchesAny CONFIG_PATTERNS (path f)
      /\ isDocumentation f = matchesAny DOC_PATTERNS (path f))
  /\ ((forall x y : bool, exists p, isTestFile p = x /\ isConfigFile p = y)
      /\ (forall x y : bool, exists p, isTestFile p = x /\ isDocumentationFile p = y)
      /\ (forall x y : bool, exists p, isConfigFile p = x /\ isDocumentationFile p = y)
      /\ (forall tier (x : bool), exists p, getFilePriority p = tier /\ isTestFile p = x)
      /\ (forall tier (x : bool), tier <> low ->
            exists p, getFilePriority p = tier /\ isConfigFile p = x)
      /\ (forall tier (x : bool), tier <> low ->
            exists p, getFilePriority p = tier /\ isDocumentationFile p = x))
  /\ (fst (fetchRepoData o r (Sample.scenarioA readme bundle app))
      = Returned {| defaultBranchOf := "main";
                    codeFiles := [ mkCodeFile "src/app.ts" app 2048 (Some "TypeScript")
                                              false false false high;
                                   mkCodeFile "README.md" readme 1024 (Some "Markdown")
                                              false false true medium ];
                    totalCodeSize := 3072;
                    filesAnalyzed := 2;
                    filesSkipped := 0 |}
      /\ Js.has SKIP_DIRECTORIES (Js.toLowerCase "dist") = true
      /\ Js.includes ".min." "dist/bundle.min.js" = true
      /\ shouldSkipFile "dist/bundle.min.js" (500 * 1024) = true).
Proof.
  intros Hrun Hin.
  destruct (fetchRepoData_provenance
              (fun f => f = collect (path f) (size f) (content f)) (fun _ _ => True)
              o r remote data log) as (_ & Hfiles & _); trivial.
  pose proof (proj1 (Forall_forall _ _) Hfiles f Hin) as Hf; simpl in Hf.
  assert (Hp : priority f = getFilePriority (path f)) by now rewrite Hf at 1.
  split; [|split; [|split]].
  - rewrite Hp. split; [reflexivity|]. apply getFilePriority_cases.
  - repeat split; now rewrite Hf at 1.
  - repeat split.
    + intros [] []; [exists "tests/data.yml" | exists "tests/x.css"
                     | exists "a.yml" | exists "a.css"]; now vm_compute.
    + intros [] []; [exists "tests/notes.md" | exists "tests/x.css"
                     | exists "a.md" | exists "a.css"]; now vm_compute.
    + intros [] []; [exists "readme.json" | exists "a.yml"
                     | exists "a.md" | exists "a.css"]; now vm_compute.
    + intros [] []; [exists "src/app.test.ts" | exists "src/app.ts"
                     | exists "tests/data.yml" | exists "a.yml"
                     | exists "tests/x.css" | exists "a.css"]; now vm_compute.
    + intros [] [] H; try (now destruct H);
        [exists "package.json" | exists "src/app.ts"
         | exists "a.yml" | exists "a.md"]; now vm_compute.
    + intros [] [] H; try (now destruct H);
        [exists "src/README.md" | exists "src/app.ts"
         | exists "a.md" | exists "a.yml"]; now vm_compute.
  - repeat split; now vm_compute.
Qed.

Lemma classification_tier_and_flags_witness :
  exists data log f,
    fetchRepoData "o" "r" (Sample.scenarioA "doc" "min" "code") = (Returned data, log)
    /\ In f (codeFiles data)
    /\ path f = "README.md"
    /\ priority f = getFilePriority (path f)
    /\ isDocumentation f = matchesAny DOC_PATTERNS (path f).
Proof.
  eexists; eexists; eexists; split; [reflexivity|].
  split; [right; left; reflexivity|]. split; [reflexivity|].
  destruct (classification_tier_and_flags "o" "r" (Sample.scenarioA "doc" "min" "code")
              _ _ (mkCodeFile "README.md" "doc" 1024 (Some "Markdown")
                              false false true medium)
              "doc" "min" "code" eq_refl)
    as ((H1 & _) & (_ & _ & H2) & _).
  - right; left; reflexivity.
  - exact (conj H1 H2).
Defined.

(** ** C7 *)

(** [split] cuts at the first separator. *)
Lemma split_head s :
  exists h t,
    Js.split "/" s = h :: t
    /\ Js.includes "/" h = false
    /\ ((t = [] /\ s = h)
        \/ exists rest, s = (h ++ "/" ++ rest)%string /\ Js.split "/" rest = t).
Proof.
  induction s as [|c s IH].
  - exists EmptyString, []. repeat split. now left.
  - cbn [Js.split]. destruct (Ascii.eqb c "/") eqn:Hc.
    + apply Ascii.eqb_eq in Hc. subst c.
      exists EmptyString, (Js.split "/" s). repeat split. right. now exists s.
    + destruct IH as (h & t & -> & Hh & Hrest).
      exists (String c h), t. split; [reflexivity|]. split.
      * rewrite includes_char, Ascii.eqb_sym, Hc. exact Hh.
      * destruct Hrest as [[-> ->]|(rest & -> & <-)]; [now left|].
        right. now exists rest.
Qed.

Lemma parts_after_slashes before s :
  slashes before = true ->
  filter Js.truthy (Js.split "/" (before ++ s)) = filter Js.truthy (Js.split "/" s).
Proof.
  induction before as [|c before IH]; [reflexivity|]. cbn [slashes].
  intros H. apply andb_true_iff in H as [Hc H]. cbn [append Js.split].
  rewrite Hc. cbn [filter Js.truthy]. now apply IH.
Qed.

Lemma parts_segment o rest :
  isSegment o ->
  rest = EmptyString \/ Js.startsWith "/" rest = true ->
  exists more, filter Js.truthy (Js.split "/" (o ++ rest)) = o :: more.
Proof.
  intros [Ho So] [->|Hrest].
  - rewrite append_empty, (split_whole o So). cbn [filter]. rewrite Ho. eauto.
  - destruct rest as [|c rest]; [discriminate|]. cbn [Js.startsWith] in Hrest.
    apply andb_true_iff in Hrest as [Hc _]. apply Ascii.eqb_eq in Hc. subst c.
    rewrite (split_first o _ So). cbn [filter]. rewrite Ho. eauto.
Qed.

(** The first two segments of a path are the first two parts that
    [pathParts] keeps. *)
Lemma firstTwoSegments_parts p o r :
  firstTwoSegments p o r ->
  exists more, filter Js.truthy (Js.split "/" p) = o :: r :: more.
Proof.
  intros (before & between & rest & -> & Hb & Hm & [Ho So] & Hr & Hrest).
  rewrite (parts_after_slashes before _ Hb).
  change (o ++ "/" ++ between ++ r ++ rest)%string
    with (o ++ String "/" (between ++ r ++ rest))%string.
  rewrite (split_first o _ So). cbn [filter]. rewrite Ho.
  rewrite (parts_after_slashes between _ Hm).
  destruct (parts_segment r rest Hr Hrest) as [more ->]. eauto.
Qed.

(** The first part that [pathParts] keeps is a segment with separators
    only before it. *)
Lemma parts_first s : forall o more,
  filter Js.truthy (Js.split "/" s) = o :: more ->
  exists before rest,
    s = (before ++ o ++ rest)%string
    /\ slashes before = true /\ isSegment o
    /\ (rest = EmptyString \/ Js.startsWith "/" rest = true)
    /\ filter Js.truthy (Js.split "/" rest) = more.
Proof.
  induction s as [|c s IH]; intros o more; [discriminate|].
  destruct (Ascii.eqb c "/") eqn:Hc.
  - cbn [Js.split]. rewrite Hc. cbn [filter Js.truthy]. intros H.
    destruct (IH o more H) as (before & rest & -> & Hb & Ho & Hrest & Hmore).
    exists (String c before), rest. cbn [append slashes]. rewrite Hc.
    split; [reflexivity|]. split; [exact Hb|]. split; [exact Ho|]. now split.
  - destruct (split_head (String c s)) as (h & t & E & Hh & Hcases).
    assert (Hfull : Js.truthy h = true).
    { revert E. cbn [Js.split]. rewrite Hc. destruct (Js.split "/" s); now intros [= <- _]. }
    rewrite E. cbn [filter]. rewrite Hfull. intros [= <- <-].
    destruct Hcases as [[-> ->]|(rest & -> & <-)].
    + exists EmptyString, EmptyString. rewrite append_empty. cbn [append].
      repeat split; trivial. now left.
    + exists EmptyString, ("/" ++ rest)%string. cbn [append slashes].
      split; [reflexivity|]. split; [reflexivity|]. split; [now split|].
      split; [now right|]. reflexivity.
Qed.

Lemma parts_firstTwoSegments p o r more :
  filter Js.truthy (Js.split "/" p) = o :: r :: more -> firstTwoSegments p o r.
Proof.
  intros H.
  destruct (parts_first p o (r :: more) H) as (before & rest1 & -> & Hb & Ho & Hrest1 & H1).
  destruct (parts_first rest1 r more H1) as (between & rest & -> & Hm & Hr & Hrest & _).
  destruct between as [|c between].
  - destruct Hrest1 as [E|E].
    + destruct r; [now destruct Hr | discriminate].
    + destruct Hr as [Hfull Hno]. destruct r as [|d r]; [discriminate|].
      cbn [append Js.startsWith] in E. apply andb_true_iff in E as [E _].
      rewrite includes_char, E in Hno. discriminate.
  - cbn [slashes] in Hm. apply andb_true_iff in Hm as [Hc Hm].
    apply Ascii.eqb_eq in Hc. subst c.
    exists before, between, rest. cbn [append].
    split; [reflexivity|]. split; [exact Hb|]. split; [exact Hm|].
    split; [exact Ho|]. split; [exact Hr | exact Hrest].
Qed.

(** C7. [parseGithubUrl] returns the pair of [o] and [r] exactly when the
    string parses as a URL whose host name is [github.com] and whose path
    has at least two non-empty segments, the first two being [o] and [r].
    It returns null exactly when the string does not parse as a URL, or the
    host name is not [github.com], or the path has fewer than two non-empty
    segments.  It makes no request, and when it returns null the caller
    makes none either.  [https://github.com/onlyowner] parses to null. *)
Theorem parse_null_or_pair newURL network url :
  (forall o r,
     parseGithubUrl newURL url = Some (mkRepoRef o r)
     <-> exists u, newURL url = Some u /\ hostname u = "github.com"
                   /\ firstTwoSegments (pathname u) o r)
  /\ (parseGithubUrl newURL url = None
      <-> (newURL url = None
           \/ exists u, newURL url = Some u
                /\ (hostname u <> "github.com"
                    \/ forall o r, ~ firstTwoSegments (pathname u) o r)))
  /\ (parseGithubUrl newURL url = None ->
      snd (handleAnalyze newURL network url) = [])
  /\ (newURL "https://github.com/onlyowner" = Some (mkURL "github.com" "/onlyowner") ->
      parseGithubUrl newURL "https://github.com/onlyowner" = None)
  /\ parseGithubUrl SimpleUrl.parse "https://github.com/onlyowner" = None.
Proof.
  assert (Hpair : forall o r,
    parseGithubUrl newURL url = Some (mkRepoRef o r)
    <-> exists u, newURL url = Some u /\ hostname u = "github.com"
                  /\ firstTwoSegments (pathname u) o r).
  { intros o r. unfold parseGithubUrl. split.
    - destruct (newURL url) as [u|]; [|discriminate].
      destruct (String.eqb (hostname u) "github.com") eqn:Hhost; [|discriminate].
      apply String.eqb_eq in Hhost. cbn [negb].
      destruct (pathParts u) as [|a [|c more]] eqn:E; try discriminate.
      cbn [List.length Nat.ltb Nat.leb nth]. intros [= <- <-].
      exists u. repeat split; trivial. now apply parts_firstTwoSegments with more.
    - intros (u & -> & -> & Htwo). cbn [String.eqb negb].
      destruct (firstTwoSegments_parts _ _ _ Htwo) as [more E].
      unfold pathParts. rewrite E. reflexivity. }
  split; [exact Hpair|]. split; [|split; [|split; [|reflexivity]]].
  - split.
    + intros Hnone. destruct (newURL url) as [u|] eqn:Hu; [|now left].
      right. exists u. split; trivial.
      destruct (String.eqb (hostname u) "github.com") eqn:Hhost;
        [|left; now apply String.eqb_neq].
      right. intros o r Htwo. apply String.eqb_eq in Hhost.
      assert (H : parseGithubUrl newURL url = Some (mkRepoRef o r))
        by (apply Hpair; eauto).
      congruence.
    + intros H. destruct (parseGithubUrl newURL url) as [[o r]|] eqn:E; trivial.
      destruct (proj1 (Hpair o r) eq_refl) as (u & Hu & Hhost & Htwo).
      destruct H as [H|(u' & Hu' & [H|H])]; [congruence| |].
      * rewrite Hu in Hu'. injection Hu' as <-. contradiction.
      * rewrite Hu in Hu'. injection Hu' as <-. now destruct (H o r).
  - intros H. unfold handleAnalyze. now rewrite H.
  - intros H. unfold parseGithubUrl. now rewrite H.
Qed.

Lemma parse_null_or_pair_witness :
  parseGithubUrl SimpleUrl.parse "https://github.com/owner/repo"
  = Some (mkRepoRef "owner" "repo")
  /\ parseGithubUrl SimpleUrl.parse "https://github.com/onlyowner" = None
  /\ snd (handleAnalyze SimpleUrl.parse (fun _ _ => Sample.ok [])
                        "https://github.com/onlyowner") = [].
Proof.
  destruct (parse_null_or_pair SimpleUrl.parse (fun _ _ => Sample.ok [])
              "https://github.com/owner/repo") as (Hpair & _).
  destruct (parse_null_or_pair SimpleUrl.parse (fun _ _ => Sample.ok [])
              "https://github.com/onlyowner") as (_ & Hnull & Hquiet & _).
  assert (H : parseGithubUrl SimpleUrl.parse "https://github.com/onlyowner" = None).
  { apply Hnull. right. exists (mkURL "github.com" "/onlyowner").
    split; [reflexivity|]. right. intros o r Htwo.
    destruct (firstTwoSegments_parts _ _ _ Htwo) as [more E]. discriminate. }
  split; [|exact (conj H (Hquiet H))].
  apply Hpair. exists (mkURL "github.com" "/owner/repo").
  split; [reflexivity|]. split; [reflexivity|].
  exists "/", EmptyString, EmptyString. repeat split. now left.
Defined.

(** ** C10 *)

(** C10. On a URL of host [github.com] whose path is [/o/r] followed by
    further segments, [parseGithubUrl] returns the pair of [o] and [r], the
    result it returns on the URL whose path is [/o/r] alone; so it does on
    [https://github.com/owner/repo/tree/main]. *)
Theorem parse_ignores_further_segments newURL url short o r extra :
  isSegment o -> isSegment r ->
  Js.startsWith "/" extra = true ->
  newURL url = Some (mkURL "github.com" ("/" ++ o ++ "/" ++ r ++ extra)) ->
  newURL short = Some (mkURL "github.com" ("/" ++ o ++ "/" ++ r)) ->
  parseGithubUrl newURL url = Some (mkRepoRef o r)
  /\ parseGithubUrl newURL url = parseGithubUrl newURL short
  /\ parseGithubUrl SimpleUrl.parse "https://github.com/owner/repo/tree/main"
     = parseGithubUrl SimpleUrl.parse "https://github.com/owner/repo".
Proof.
  intros Ho Hr Hextra Hurl Hshort.
  assert (Hlong : parseGithubUrl newURL url = Some (mkRepoRef o r)).
  { destruct (pathParts_two "github.com" o r extra Ho Hr (or_intror Hextra))
      as [more E].
    unfold parseGithubUrl. now rewrite Hurl, E. }
  assert (Hbase : parseGithubUrl newURL short = Some (mkRepoRef o r)).
  { destruct (pathParts_two "github.com" o r EmptyString Ho Hr (or_introl eq_refl))
      as [more E].
    rewrite append_empty in E. unfold parseGithubUrl. now rewrite Hshort, E. }
  split; [exact Hlong|]. split; [congruence | reflexivity].
Qed.

Lemma parse_ignores_further_segments_witness :
  parseGithubUrl SimpleUrl.parse "https://github.com/owner/repo/tree/main"
  = Some (mkRepoRef "owner" "repo")
  /\ parseGithubUrl SimpleUrl.parse "https://github.com/owner/repo/tree/main"
     = parseGithubUrl SimpleUrl.parse "https://github.com/owner/repo".
Proof.
  destruct (parse_ignores_further_segments SimpleUrl.parse
              "https://github.com/owner/repo/tree/main"
              "https://github.com/owner/repo" "owner" "repo" "/tree/main")
    as (H1 & H2 & _).
  - split; reflexivity.
  - split; reflexivity.
  - reflexivity.
  - reflexivity.
  - reflexivity.
  - exact (conj H1 H2).
Defined.

(** ** C1 *)

Ltac by_computation :=
  match goal with
  | |- (_ < _)%nat => apply Nat.ltb_lt; vm_compute; reflexivity
  | |- (_ <= _)%nat => apply Nat.leb_le; vm_compute; reflexivity
  | |- _ < _ => apply Z.ltb_lt; vm_compute; reflexivity
  | |- _ <= _ => apply Z.leb_le; vm_compute; reflexivity
  | |- _ => vm_compute; reflexivity
  end.




(** ** C2 *)

Lemma eligibleKilobyteb_spec l :
  forallb eligibleKilobyteb l = true -> Forall eligibleKilobyte l.
Proof.
  rewrite forallb_forall, Forall_forall. intros H item Hin. specialize (H item Hin).
  destruct item as [name p sz [| | |text]| |]; try discriminate.
  simpl in *. apply andb_true_iff in H as [Hsz Hkeep].
  apply Z.eqb_eq in Hsz. apply negb_true_iff in Hkeep. now split.
Qed.

(** On six hundred eligible files of 1 KB in one listing the walk stops at
    the 500th: 500 files are returned and the skipped count is 0, not
    100. *)
Lemma skipped_count_counterexample :
  exists data log,
    fetchRepoData "o" "r" (Sample.ok Sample.scenarioB) = (Returned data, log)
    /\ Forall eligibleKilobyte Sample.scenarioB
    /\ List.length Sample.scenarioB = 600%nat
    /\ List.length (codeFiles data) = 500%nat
    /\ filesSkipped data = 0
    /\ filesSkipped data <> 100.
Proof.
  eexists; eexists; split; [by_computation|].
  split; [apply eligibleKilobyteb_spec; by_computation|].
  split; [by_computation|]. split; [by_computation|].
  split; [by_computation | vm_compute; discriminate].
Qed.

(** C2, amended.  The skipped count is the number of files the walk
    returned minus the number of files analyzed, never negative; it is 0
    whenever no sub-directory of the root listing is walked.  For a root
    listing of 600 eligible files of 1 KB each, exactly 500 files are
    returned and the skipped count is 0. *)
Theorem skipped_count_is_walked_minus_analyzed o r remote data log :
  fetchRepoData o r remote = (Returned data, log) ->
  filesSkipped data
  = Z.of_nat (List.length (discoveredFiles o r remote)) - Z.of_nat (filesAnalyzed data)
  /\ 0 <= filesSkipped data
  /\ (forall contents,
        rootListing remote = Some contents -> Forall noWalkedDir contents ->
        filesSkipped data = 0)
  /\ (forall contents,
        rootListing remote = Some contents -> Forall eligibleKilobyte contents ->
        List.length contents = 600%nat ->
        List.length (codeFiles data) = 500%nat
        /\ filesAnalyzed data = 500%nat
        /\ filesSkipped data = 0).
Proof.
  intros Hrun.
  destruct (fetchRepoData_returned _ _ _ _ _ Hrun)
    as (db & Hmeta & _ & Hfiles & _ & Hanalyzed & Hskipped).
  assert (Hlen : List.length (codeFiles data)
                 = Nat.min MAX_FILES_TO_ANALYZE (List.length (discoveredFiles o r remote))).
  { rewrite Hfiles, length_firstn.
    now rewrite (Permutation_length (sort_permutation byPriority _)). }
  assert (Hflat : forall contents,
             rootListing remote = Some contents -> Forall noWalkedDir contents ->
             (List.length (discoveredFiles o r remote) <= MAX_FILES_TO_ANALYZE)%nat).
  { intros contents Hroot Hnodir. unfold discoveredFiles, allCodeFiles.
    rewrite Hmeta, Hroot. now apply walk_within. }
  split; [now rewrite Hanalyzed|]. split; [lia|]. split.
  - intros contents Hroot Hnodir. specialize (Hflat contents Hroot Hnodir). lia.
  - intros contents Hroot Hall Hcount.
    assert (Hfound : List.length (discoveredFiles o r remote) = 500%nat).
    { unfold discoveredFiles, allCodeFiles. rewrite Hmeta, Hroot, walk_unfold.
      cbn [fst]. rewrite kilobytes_collected; trivial; cbn [files totalSize List.length];
        unfold MAX_FILES_TO_ANALYZE; lia. }
    unfold MAX_FILES_TO_ANALYZE in *. lia.
Qed.

Lemma skipped_count_is_walked_minus_analyzed_witness :
  exists data log,
    fetchRepoData "o" "r" (Sample.ok Sample.scenarioB) = (Returned data, log)
    /\ List.length (codeFiles data) = 500%nat
    /\ filesAnalyzed data = 500%nat
    /\ filesSkipped data = 0.
Proof.
  pose (remote := Sample.ok Sample.scenarioB).
  assert (Hrun : fetchRepoData "o" "r" remote
                 = (fst (fetchRepoData "o" "r" remote), snd (fetchRepoData "o" "r" remote)))
    by now destruct (fetchRepoData "o" "r" remote).
  destruct (fst (fetchRepoData "o" "r" remote)) as [data|message] eqn:Hfst;
    [|vm_compute in Hfst; discriminate].
  exists data, (snd (fetchRepoData "o" "r" remote)). split; [exact Hrun|].
  destruct (skipped_count_is_walked_minus_analyzed "o" "r" remote data _ Hrun)
    as (_ & _ & _ & H).
  apply (H Sample.scenarioB eq_refl).
  - apply eligibleKilobyteb_spec. by_computation.
  - by_computation.
Defined.

(** ** C3 *)

(** Two entries with one path give two returned files with that path. *)
Lemma duplicate_paths_counterexample :
  exists data log,
    fetchRepoData "o" "r" Sample.duplicated = (Returned data, log)
    /\ map path (codeFiles data) = ["a.ts"; "a.ts"]
    /\ map content (codeFiles data) = ["one"; "two"].
Proof. eexists; eexists; split; [reflexivity|]. split; reflexivity. Qed.

(** C3, amended.  [fetchRepoData] does not deduplicate: a path occurs in
    the returned list as often as the walk admitted it when the walk
    returned at most 500 files, and at most as often otherwise.  Paths are
    deduplicated later, in the selection that [analyzeRepository] makes
    from the returned list: there each path occurs once, with the file
    selected last for it. *)
Theorem paths_deduplicated_only_in_selection o r remote data log p :
  fetchRepoData o r remote = (Returned data, log) ->
  (List.length (withPath p (codeFiles data))
   <= List.length (withPath p (discoveredFiles o r remote)))%nat
  /\ ((List.length (discoveredFiles o r remote) <= MAX_FILES_TO_ANALYZE)%nat ->
      List.length (withPath p (codeFiles data))
      = List.length (withPath p (discoveredFiles o r remote)))
  /\ NoDup (map path (uniqueFiles (codeFiles data)))
  /\ (forall f, In f (uniqueFiles (codeFiles data)) ->
        exists before after,
          selectedFiles (codeFiles data) = before ++ f :: after
          /\ Forall (fun g => path g <> path f) after).
Proof.
  intros Hrun.
  destruct (fetchRepoData_returned _ _ _ _ _ Hrun) as (_ & _ & _ & Hfiles & _).
  pose proof (sort_permutation byPriority (discoveredFiles o r remote)) as Hperm.
  unfold withPath. split; [|split].
  - rewrite Hfiles, <- (filter_length_perm _ _ _ Hperm). apply filter_length_firstn.
  - intros Hfew. rewrite Hfiles, firstn_all2; [now apply filter_length_perm|].
    now rewrite (Permutation_length Hperm).
  - apply uniqueFiles_last_wins.
Qed.

Lemma paths_deduplicated_only_in_selection_witness :
  exists data log,
    fetchRepoData "o" "r" Sample.duplicated = (Returned data, log)
    /\ List.length (withPath "a.ts" (codeFiles data)) = 2%nat
    /\ map content (uniqueFiles (codeFiles data)) = ["two"].
Proof.
  eexists; eexists; split; [reflexivity|].
  destruct (paths_deduplicated_only_in_selection "o" "r" Sample.duplicated
              _ _ "a.ts" eq_refl) as (_ & H & _).
  split; [|reflexivity]. rewrite H; [reflexivity | by_computation].
Defined.

(** ** C8 *)

(** The claim as stated fails: the metadata request succeeds, the walk
    runs to its end, and the collection throws for the missing owner. *)
Lemma thrown_after_walk_counterexample :
  ~ metadataFailed (metadata Sample.ownerless)
  /\ fetchRepoData "o" "r" Sample.ownerless
     = (Threw "Cannot read properties of undefined (reading 'login')",
        [ MetadataRequest "https://api.github.com/repos/o/r";
          ListingRequest "https://api.github.com/repos/o/r/contents?ref=main";
          ContentRequest "https://api.github.com/repos/o/r/contents/a.ts?ref=main"
                         "a.ts" 10 ]).
Proof. split; [intros [] | reflexivity]. Qed.

(** C8, amended.  A content request that fails (an error status, no
    content, or an exception in the request or in the decoding) does not end
    the walk: the outcome of [fetchRepoData] is its outcome on the tree
    without the file entry the request was made for.  [fetchRepoData] throws
    exactly when the metadata request fails, and then nothing else is
    requested, or when the successful metadata response has no owner, and
    then it throws after the whole walk, with the requests of the run that
    returns.  Whatever the listings and the content requests answer, it
    returns when the metadata response is complete. *)
Theorem failed_fetch_is_omitted o r default_branch t t' remote :
  failsDuring o r (branchOrMain default_branch)
              (rootState o r (branchOrMain default_branch)) t t' ->
  fst (fetchRepoData o r (mkRemote (MetaOk default_branch) (Some t')))
  = fst (fetchRepoData o r (mkRemote (MetaOk default_branch) (Some t)))
  /\ ((exists message log, fetchRepoData o r remote = (Threw message, log))
      <-> (metadataFailed (metadata remote)
           \/ exists db message, metadata remote = MetaOwnerless db message))
  /\ (metadataFailed (metadata remote) ->
      snd (fetchRepoData o r remote) = [MetadataRequest (repoUrl o r)])
  /\ (forall db message, metadata remote = MetaOwnerless db message ->
        fetchRepoData o r remote
        = (Threw message,
           snd (fetchRepoData o r (mkRemote (MetaOk db) (rootListing remote)))))
  /\ (forall db, metadata remote = MetaOk db ->
        exists data log, fetchRepoData o r remote = (Returned data, log)).
Proof.
  intros Hfail. split; [|split; [|split; [|split]]].
  - pose proof (walk_failing o r (branchOrMain default_branch) t t' Hfail) as E.
    unfold fetchRepoData, allCodeFiles; cbn [metadata rootListing].
    destruct (fetchAllFilesRecursive _ _ _ _ (Some t') _) as [walked' log'].
    destruct (fetchAllFilesRecursive _ _ _ _ (Some t) _) as [walked log].
    cbn [fst] in *. now subst.
  - rewrite fetchRepoData_throws. unfold metadataFailed.
    destruct (metadata remote) as [message|status text|db|db message]; split.
    + intros _. now left.
    + intros _ db. discriminate.
    + intros _. now left.
    + intros _ db. discriminate.
    + intros H. now destruct (H db).
    + intros [[]|(db' & message & H)]; discriminate.
    + intros _. right. eauto.
    + intros _ db'. discriminate.
  - unfold metadataFailed, fetchRepoData.
    destruct (metadata remote) as [message|status text|db|db message];
      try contradiction; intros _; [reflexivity|].
    destruct (status =? 404); [|destruct (status =? 403)]; reflexivity.
  - intros db message Hmeta.
    destruct (fetchRepoData_ownerless o r remote db message Hmeta) as (_ & _ & H).
    exact H.
  - intros db Hmeta. unfold fetchRepoData. rewrite Hmeta.
    destruct (allCodeFiles _ _ _ _ _). eauto.
Qed.

Lemma failed_fetch_is_omitted_witness :
  fst (fetchRepoData "o" "r"
         (Sample.ok [FileItem "a.ts" "a.ts" 10 (ContentDecoded "x");
                     DirItem "src" "src"
                       (Some [FileItem "c.ts" "src/c.ts" 10 (ContentDecoded "z")])]))
  = fst (fetchRepoData "o" "r"
           (Sample.ok [FileItem "a.ts" "a.ts" 10 (ContentDecoded "x");
                       DirItem "src" "src"
                         (Some [FileItem "b.ts" "src/b.ts" 10 ContentThrows;
                                FileItem "c.ts" "src/c.ts" 10 (ContentDecoded "z")])])).
Proof.
  apply (failed_fetch_is_omitted "o" "r" (Some "main") _ _ (Sample.ok [])).
  eapply (fails_below "o" "r" "main" _ _
            [FileItem "a.ts" "a.ts" 10 (ContentDecoded "x")] "src" "src"
            [FileItem "b.ts" "src/b.ts" 10 ContentThrows;
             FileItem "c.ts" "src/c.ts" 10 (ContentDecoded "z")]
            [FileItem "c.ts" "src/c.ts" 10 (ContentDecoded "z")] []).
  - reflexivity.
  - reflexivity.
  - apply (fails_here "o" "r" "main" _ [] "b.ts" "src/b.ts" 10 ContentThrows
             [FileItem "c.ts" "src/c.ts" 10 (ContentDecoded "z")]).
    + intros text. discriminate.
    + reflexivity.
Defined.

(** * Further properties of the code *)

(** ** More on strings *)

Lemma append_assoc (a b c : string) : ((a ++ b) ++ c = a ++ (b ++ c))%string.
Proof. induction a; simpl; congruence. Qed.

Lemma length_append (a b : string) :
  String.length (a ++ b) = (String.length a + String.length b)%nat.
Proof. induction a; simpl; congruence. Qed.

Lemma includes_char_append c a b :
  Js.includes (String c EmptyString) (a ++ b)
  = Js.includes (String c EmptyString) a || Js.includes (String c EmptyString) b.
Proof.
  induction a as [|d a IH].
  - simpl. now destruct b.
  - change (String d a ++ b)%string with (String d (a ++ b)%string).
    rewrite !includes_char, IH. now rewrite orb_assoc.
Qed.

Lemma toLowerCase_append a b :
  Js.toLowerCase (a ++ b) = (Js.toLowerCase a ++ Js.toLowerCase b)%string.
Proof. induction a; simpl; congruence. Qed.

Lemma lowerAscii_dot c : Ascii.eqb "." (Js.lowerAscii c) = Ascii.eqb "." c.
Proof. destruct c as [[] [] [] [] [] [] [] []]; reflexivity. Qed.

Lemma lowerAscii_idem c : Js.lowerAscii (Js.lowerAscii c) = Js.lowerAscii c.
Proof. destruct c as [[] [] [] [] [] [] [] []]; reflexivity. Qed.

Lemma includes_dot_lower s :
  Js.includes "." (Js.toLowerCase s) = Js.includes "." s.
Proof.
  induction s as [|c s IH]; [reflexivity|].
  cbn [Js.toLowerCase]. now rewrite !includes_char, lowerAscii_dot, IH.
Qed.

(** The segments that [split] returns hold no separator. *)
Lemma split_segments s :
  Forall (fun part => Js.includes "/" part = false) (Js.split "/" s).
Proof.
  induction s as [|c s IH]; [repeat constructor|]. cbn [Js.split].
  destruct (Ascii.eqb c "/") eqn:E; [now constructor|].
  destruct (Js.split "/" s) as [|h t].
  - constructor; [|constructor]. now rewrite includes_char, Ascii.eqb_sym, E.
  - inversion IH as [|? ? Hh Ht]; subst. constructor; trivial.
    now rewrite includes_char, Ascii.eqb_sym, E, Hh.
Qed.

(** ** The helper [parseGithubUrl] *)

(** X1. What [parseGithubUrl] returns is made of the first two non-empty
    segments of the path of a [github.com] URL: neither name is empty, and
    neither holds a [/]. *)
Theorem parsed_names_are_segments newURL url ref :
  parseGithubUrl newURL url = Some ref ->
  isSegment (owner ref) /\ isSegment (repo ref)
  /\ exists urlObj more,
       newURL url = Some urlObj
       /\ hostname urlObj = "github.com"
       /\ pathParts urlObj = owner ref :: repo ref :: more.
Proof.
  unfold parseGithubUrl. destruct (newURL url) as [u|]; [|discriminate].
  destruct (String.eqb (hostname u) "github.com") eqn:Hhost; [|discriminate].
  apply String.eqb_eq in Hhost. cbn [negb].
  assert (Hparts : Forall isSegment (pathParts u)).
  { unfold pathParts. apply Forall_forall. intros part Hin.
    apply filter_In in Hin as [Hin Hfull]. split; trivial.
    apply (proj1 (Forall_forall _ _) (split_segments (pathname u)) _ Hin). }
  destruct (pathParts u) as [|a [|c more]] eqn:E; try discriminate.
  simpl. intros [= <-]. simpl.
  inversion Hparts as [|? ? Ha Hrest]; subst. inversion Hrest as [|? ? Hc _]; subst.
  repeat split; try apply Ha; try apply Hc. exists u, more. now rewrite E.
Qed.

Lemma parsed_names_are_segments_witness :
  isSegment "owner" /\ isSegment "repo.git".
Proof.
  destruct (parsed_names_are_segments SimpleUrl.parse
              "https://github.com//owner/repo.git/issues"
              (mkRepoRef "owner" "repo.git") eq_refl) as (H1 & H2 & _).
  exact (conj H1 H2).
Defined.

(** ** Extensions *)

Lemma afterLastDot_none s : afterLastDot s = None -> Js.includes "." s = false.
Proof.
  induction s as [|c s IH]; [reflexivity|]. cbn [afterLastDot].
  destruct (afterLastDot s); [discriminate|].
  destruct (Ascii.eqb c ".") eqn:E; [discriminate|]. intros _.
  now rewrite includes_char, Ascii.eqb_sym, E, IH.
Qed.

Lemma afterLastDot_some s suffix :
  afterLastDot s = Some suffix ->
  Js.includes "." suffix = false
  /\ exists before, s = (before ++ "." ++ suffix)%string.
Proof.
  revert suffix; induction s as [|c s IH]; intros suffix; [discriminate|].
  cbn [afterLastDot]. destruct (afterLastDot s) as [found|] eqn:E.
  - intros [= <-]. destruct (IH found eq_refl) as [Hno [before ->]].
    split; trivial. now exists (String c before).
  - destruct (Ascii.eqb c ".") eqn:Ec; [|discriminate]. intros [= <-].
    apply Ascii.eqb_eq in Ec. subst c. split; [now apply afterLastDot_none|].
    now exists EmptyString.
Qed.

(** The position that [lastIndexOf] returns is where the last dot is. *)
Lemma lastIndexOf_from_spec s : forall i last,
  match afterLastDot s with
  | Some suffix =>
      i <= Js.lastIndexOf_from "." s i last
      /\ Js.drop (Z.to_nat (Js.lastIndexOf_from "." s i last - i)) s = String "." suffix
  | None => Js.lastIndexOf_from "." s i last = last
  end.
Proof.
  induction s as [|c s IH]; intros i last; [reflexivity|].
  cbn [afterLastDot Js.lastIndexOf_from].
  specialize (IH (i + 1) (if Ascii.eqb c "." then i else last)).
  destruct (afterLastDot s) as [suffix|].
  - destruct IH as [Hle Hdrop]. split; [lia|].
    replace (Z.to_nat (Js.lastIndexOf_from "." s (i + 1)
                         (if Ascii.eqb c "." then i else last) - i))
      with (S (Z.to_nat (Js.lastIndexOf_from "." s (i + 1)
                           (if Ascii.eqb c "." then i else last) - (i + 1)))) by lia.
    exact Hdrop.
  - rewrite IH. destruct (Ascii.eqb c ".") eqn:E; [|reflexivity].
    apply Ascii.eqb_eq in E. subst c. split; [lia|].
    now replace (i - i) with 0 by lia.
Qed.

Lemma extension_spec p :
  extension p = match afterLastDot p with
                | Some suffix => String "." (Js.toLowerCase suffix)
                | None => Js.toLowerCase p
                end.
Proof.
  unfold extension, Js.substring, Js.lastIndexOf.
  pose proof (lastIndexOf_from_spec p 0 (-1)) as H.
  destruct (afterLastDot p) as [suffix|].
  - destruct H as [Hle Hdrop]. rewrite Z.sub_0_r in Hdrop.
    rewrite Z.max_r by lia. now rewrite Hdrop.
  - now rewrite H.
Qed.

(** An extension holds no dot after its first character. *)
Lemma extension_one_dot p : Js.includes "." (Js.drop 1 (extension p)) = false.
Proof.
  rewrite extension_spec. destruct (afterLastDot p) as [suffix|] eqn:E.
  - cbn [Js.drop]. rewrite includes_dot_lower. now apply afterLastDot_some in E.
  - apply afterLastDot_none in E. rewrite <- includes_dot_lower in E.
    destruct (Js.toLowerCase p) as [|c rest]; [reflexivity|]. cbn [Js.drop].
    rewrite includes_char in E. now apply orb_false_iff in E.
Qed.

(** X2. The entries [.min.js], [.min.css] and [.bundle.js] of the
    extension skip-list never decide: an extension starts at the last dot of
    the path, so none has a dot inside, and [shouldSkipFile] answers as it
    would without those three entries. *)
Theorem compound_extensions_never_match p sz :
  extension p <> ".min.js" /\ extension p <> ".min.css" /\ extension p <> ".bundle.js"
  /\ shouldSkipFile p sz
     = (if MAX_FILE_SIZE <? sz then true
        else if Js.some (Js.has SKIP_DIRECTORIES) (Js.split "/" (Js.toLowerCase p))
        then true
        else if Js.has (filter (fun e => negb (Js.includes "." (Js.drop 1 e)))
                               SKIP_EXTENSIONS) (extension p) then true
        else Js.includes ".min." p || Js.includes ".bundle." p
             || Js.includes ".chunk." p).
Proof.
  pose proof (extension_one_dot p) as Hdot.
  assert (Hno : forall e, Js.includes "." (Js.drop 1 e) = true -> extension p <> e).
  { intros e He E. rewrite E in Hdot. congruence. }
  repeat split; try (apply Hno; reflexivity).
  unfold shouldSkipFile.
  destruct (MAX_FILE_SIZE <? sz); trivial. destruct (Js.some _ _); trivial.
  replace (Js.has SKIP_EXTENSIONS (extension p))
    with (Js.has (filter (fun e => negb (Js.includes "." (Js.drop 1 e))) SKIP_EXTENSIONS)
                 (extension p)).
  { destruct (Js.has _ _); [reflexivity|]. now destruct (_ || _ || _). }
  apply eq_true_iff_eq. rewrite !has_In, filter_In. split; [tauto|].
  intros Hin. split; trivial. rewrite Hdot. reflexivity.
Qed.

(** ** Patterns *)

Lemma eat_same_letters lit s :
  Js.toLowerCase lit = Js.toLowerCase s -> Re.eat lit s = Some EmptyString.
Proof.
  revert s; induction lit as [|a lit IH]; intros [|b s]; try discriminate;
    [reflexivity|].
  cbn [Js.toLowerCase Re.eat]. intros [= Hc Hrest].
  rewrite Hc, Ascii.eqb_refl. now apply IH.
Qed.

Lemma matchAnywhere_later gs toEnd before s :
  Re.matchHere gs toEnd s = true ->
  Re.matchAnywhere gs toEnd (before ++ s) = true.
Proof.
  intros H. induction before as [|c before IH].
  - destruct s; simpl; rewrite H; reflexivity.
  - change (String c before ++ s)%string with (String c (before ++ s)%string).
    cbn [Re.matchAnywhere]. rewrite IH. apply orb_true_r.
Qed.

(** A pattern [\.(a|b|...)$] matches a path whose text after the last dot is,
    up to letter case, one of the alternatives. *)
Lemma ending_matches alternatives p suffix :
  afterLastDot p = Some suffix ->
  In (Js.toLowerCase suffix) (map Js.toLowerCase alternatives) ->
  Re.test (Re.mk false [["."]; alternatives] true) p = true.
Proof.
  intros Hp Hin. apply afterLastDot_some in Hp as [_ [before ->]].
  unfold Re.test; cbn [Re.anchorStart Re.groups Re.anchorEnd].
  apply matchAnywhere_later.
  change ("." ++ suffix)%string with (String "." suffix).
  cbn [Re.matchHere existsb Re.eat].
  change (Ascii.eqb (Js.lowerAscii ".") (Js.lowerAscii ".")) with true. cbv iota.
  rewrite orb_false_r. apply existsb_exists.
  apply in_map_iff in Hin as (lit & Hlit & Hin). exists lit. split; trivial.
  now rewrite (eat_same_letters lit suffix Hlit).
Qed.

Lemma eat_whole_slash lit s :
  Re.eat lit s = Some EmptyString -> Js.includes "/" s = Js.includes "/" lit.
Proof.
  revert s; induction lit as [|a lit IH]; intros [|b s]; cbn [Re.eat];
    try discriminate; [reflexivity|].
  destruct (Ascii.eqb (Js.lowerAscii a) (Js.lowerAscii b)) eqn:E; [|discriminate].
  intros H. rewrite !includes_char, (IH s H). f_equal.
  apply Ascii.eqb_eq in E.
  rewrite !(Ascii.eqb_sym "/"), <- (lowerAscii_slash a), <- (lowerAscii_slash b).
  now rewrite E.
Qed.

(** A pattern [^(a|b|...)$] whose alternatives hold no [/] matches no path
    that holds one. *)
Lemma whole_name_needs_root alternatives p :
  Forall (fun lit => Js.includes "/" lit = false) alternatives ->
  Js.includes "/" p = true ->
  Re.test (Re.mk true [alternatives] true) p = false.
Proof.
  intros Hlits Hp. unfold Re.test; cbn [Re.anchorStart Re.groups Re.anchorEnd Re.matchHere].
  induction Hlits as [|lit rest Hlit _ IH]; [reflexivity|].
  cbn [existsb]. rewrite IH, orb_false_r.
  destruct (Re.eat lit p) as [[|c s]|] eqn:E; trivial.
  apply eat_whole_slash in E. congruence.
Qed.

(** X3. The manifest names, the infrastructure names and the dot-file
    names are matched against the whole path: a path that holds a [/] matches
    none of these patterns, so below the root a file is high priority only
    for its leading directory or its extension, and a configuration file
    only for its leading name or its extension. *)
Theorem whole_names_match_at_root_only p :
  Js.includes "/" p = true ->
  Forall (fun re => Re.test re p = false) wholeNamePatterns
  /\ matchesAny HIGH_PRIORITY_PATTERNS p
     = Re.test (nth 0 HIGH_PRIORITY_PATTERNS (Re.mk true [] true)) p
       || Re.test (nth 1 HIGH_PRIORITY_PATTERNS (Re.mk true [] true)) p
  /\ isConfigFile p
     = Re.test (nth 0 CONFIG_PATTERNS (Re.mk true [] true)) p
       || Re.test (nth 1 CONFIG_PATTERNS (Re.mk true [] true)) p.
Proof.
  intros Hp.
  assert (H : Forall (fun re => Re.test re p = false) wholeNamePatterns).
  { repeat constructor; apply whole_name_needs_root; trivial; repeat constructor. }
  split; [exact H|].
  inversion H as [|? ? H1 H']; subst. inversion H' as [|? ? H2 H'']; subst.
  inversion H'' as [|? ? H3 _]; subst.
  unfold isConfigFile, matchesAny, Js.some, HIGH_PRIORITY_PATTERNS, CONFIG_PATTERNS.
  cbn [existsb nth]. rewrite H1, H2, H3. now rewrite !orb_false_r.
Qed.

Lemma whole_names_match_at_root_only_witness :
  getFilePriority "docker/Dockerfile" = low /\ getFilePriority "Dockerfile" = high
  /\ Forall (fun re => Re.test re "docker/Dockerfile" = false) wholeNamePatterns.
Proof.
  split; [reflexivity|]. split; [reflexivity|].
  apply (whole_names_match_at_root_only "docker/Dockerfile"). reflexivity.
Defined.

(** ** Languages and priority *)

Ltac pick := solve [repeat (first [left; reflexivity | right])].

Lemma lookup_In key table v : lookup key table = Some v -> In (key, v) table.
Proof.
  induction table as [|[k w] rest IH]; [discriminate|]. cbn [lookup].
  destruct (String.eqb k key) eqn:E.
  - apply String.eqb_eq in E. intros [= <-]. subst. now left.
  - intros H. right. now apply IH.
Qed.

Lemma programming_extension e l :
  In (e, l) langMap -> In l programmingLanguages ->
  exists k, e = String "." k
            /\ In k ["ts"; "tsx"; "js"; "jsx"; "py"; "java"; "go"; "rs"; "rb";
                     "php"; "cs"; "cpp"; "c"; "h"; "swift"; "kt"; "scala"].
Proof.
  intros He Hl. unfold langMap in He. unfold programmingLanguages in Hl.
  cbn [In] in He.
  repeat (destruct He as [He|He];
          [injection He as <- <-;
           first [ eexists; split; [reflexivity|]; cbn [In]; pick
                 | exfalso; cbn [In] in Hl; intuition discriminate ]|]).
  contradiction.
Qed.

(** X4. A file whose language is detected as a programming language is
    high priority. *)
Theorem programming_language_is_high_priority p l :
  detectLanguage p = Some l -> In l programmingLanguages ->
  getFilePriority p = high.
Proof.
  unfold detectLanguage. intros Hlang Hl.
  apply lookup_In in Hlang.
  destruct (programming_extension _ _ Hlang Hl) as (k & Hext & Hk).
  rewrite extension_spec in Hext.
  apply getFilePriority_cases. unfold matchesAny, Js.some, HIGH_PRIORITY_PATTERNS.
  cbn [existsb]. apply orb_true_iff. right. apply orb_true_iff. left.
  destruct (afterLastDot p) as [suffix|] eqn:E.
  - injection Hext as Hsuffix. apply (ending_matches _ p suffix E).
    rewrite Hsuffix. cbn [map]. cbn [In] in Hk |- *.
    repeat (destruct Hk as [<-|Hk]; [pick|]). contradiction.
  - apply afterLastDot_none in E. rewrite <- includes_dot_lower, Hext in E.
    rewrite includes_char, Ascii.eqb_refl in E. discriminate.
Qed.

Lemma programming_language_is_high_priority_witness :
  getFilePriority "tools/Build.RS" = high.
Proof.
  apply (programming_language_is_high_priority "tools/Build.RS" "Rust").
  - reflexivity.
  - cbn [programmingLanguages In]. pick.
Defined.

(** ** Where the collected files come from *)

Lemma Subseq_nil_l {A : Type} (l : list A) : Subseq [] l.
Proof. induction l; [apply subseq_nil | now apply subseq_skip]. Qed.

Lemma Subseq_app {A : Type} (a a' b b' : list A) :
  Subseq a a' -> Subseq b b' -> Subseq (a ++ b) (a' ++ b').
Proof.
  induction 1; simpl; intros Hb;
    [exact Hb | apply subseq_skip; auto | apply subseq_keep; auto].
Qed.

Lemma Subseq_In {A : Type} (l l' : list A) x : Subseq l l' -> In x l -> In x l'.
Proof. induction 1; simpl; intuition. Qed.

Section TraversalOrder.

Variables (o r b : string).

#[local] Abbreviation visit := (visit o r b).
#[local] Abbreviation walk := (fetchAllFilesRecursive o r b).
#[local] Abbreviation comesFrom := (comesFrom o r b).

Lemma comesFrom_refl entries s : comesFrom entries s s.
Proof.
  exists [], []. rewrite !app_nil_r. repeat split; trivial.
  apply Subseq_nil_l.
Qed.

Lemma comesFrom_trans e1 e2 s1 s2 s3 :
  comesFrom e1 s1 s2 -> comesFrom e2 s2 s3 -> comesFrom (e1 ++ e2) s1 s3.
Proof.
  intros (f1 & m1 & Hf1 & Hr1 & Hs1 & Ha1) (f2 & m2 & Hf2 & Hr2 & Hs2 & Ha2).
  exists (f1 ++ f2), (m1 ++ m2). rewrite Hf2, Hf1, Hr2, Hr1, <- !app_assoc.
  repeat split; trivial.
  - rewrite map_app. now apply Subseq_app.
  - apply Forall_app. split; (eapply Forall_impl; [|eassumption]);
      intros f [Hc Hin]; split; trivial; apply in_or_app; auto.
Qed.

Lemma forOf_comesFrom l :
  Forall (fun item => forall s, comesFrom (entriesOf item) s (flowState (visit item s))) l ->
  forall s, comesFrom (flat_map entriesOf l) s (forOf visit l s).
Proof.
  induction 1 as [|item rest Hitem _ IH]; intros s; cbn [forOf flat_map].
  - apply comesFrom_refl.
  - specialize (Hitem s). destruct (visit item s) as [s'|s']; cbn [flowState] in Hitem.
    + now apply comesFrom_trans with s'.
    + destruct Hitem as (f1 & m1 & Hf1 & Hr1 & Hs1 & Ha1).
      exists f1, m1. repeat split; trivial.
      rewrite <- (app_nil_r (map fileInfo f1)).
      apply Subseq_app; [exact Hs1 | apply Subseq_nil_l].
Qed.

Lemma visit_comesFrom item :
  forall s, comesFrom (entriesOf item) s (flowState (visit item s)).
Proof.
  induction item as [name p sz response | type name p | name p | name p contents IH]
    using Item_nested_ind; intros s.
  - change (visit (FileItem name p sz response) s)
      with (visitFile o r b p sz response s).
    cbn [entriesOf].
    destruct (visitFile_cases o r b p sz response s)
      as [[-> _]|[[-> _]|[[-> _]|(_ & _ & _ & [(text & -> & ->)|[_ ->]])]]];
      cbn [flowState]; try apply comesFrom_refl.
    + exists [collect p sz text], [ContentRequest (fileUrl o r b p) p sz].
      split; [reflexivity|]. split; [reflexivity|]. split.
      * apply (subseq_keep (p, sz, ContentDecoded text) [] []), subseq_nil.
      * constructor; [|constructor]. split; [reflexivity | now left].
    + exists [], [ContentRequest (fileUrl o r b p) p sz]. cbn [files requests].
      rewrite app_nil_r. repeat split; trivial. apply Subseq_nil_l.
  - apply comesFrom_refl.
  - rewrite visit_dir. cbn [entriesOf].
    destruct (Js.has _ _); [apply comesFrom_refl|].
    rewrite mergeDir_state, walk_unfold. cbn [fst snd files requests].
    exists [], [ListingRequest (contentsUrl o r b p)]. cbn [files requests].
    repeat split; trivial. constructor.
  - rewrite visit_dir. cbn [entriesOf].
    destruct (Js.has _ _); [apply comesFrom_refl|].
    rewrite mergeDir_state, walk_unfold. cbn [fst snd files requests].
    set (start := mkWalk [] 0 _).
    destruct (forOf_comesFrom contents IH start) as (found & more & Hf & Hr & Hs & Ha).
    exists found, (ListingRequest (contentsUrl o r b p) :: more).
    cbn [files requests] in *. rewrite Hf, Hr. subst start. cbn [files requests].
    rewrite <- app_assoc. repeat split; trivial.
    eapply Forall_impl; [|exact Ha]. intros f [Hc Hin]. split; trivial. now right.
Qed.

Lemma walk_comesFrom p listing log :
  comesFrom (listingEntries listing)
            (mkWalk [] 0 (log ++ [ListingRequest (contentsUrl o r b p)]))
            (mkWalk (fst (walk p listing log)) 0 (snd (walk p listing log))).
Proof.
  rewrite walk_unfold. cbn zeta. destruct listing as [contents|]; cbn [fst snd listingEntries].
  - destruct (forOf_comesFrom contents
                (proj2 (Forall_forall _ _) (fun item _ => visit_comesFrom item))
                (mkWalk [] 0 (log ++ [ListingRequest (contentsUrl o r b p)])))
      as (found & more & Hf & Hr & Hs & Ha).
    exists found, more. cbn [files requests] in *. now rewrite Hf, Hr.
  - apply comesFrom_refl.
Qed.

End TraversalOrder.

(** X5. The files that the walk returns are, in the order of a
    depth-first reading of the tree, files of the tree that lie under no
    skip-listed directory and whose content request succeeded; each has the
    path, the size and the decoded content of its entry, the flags and the
    tier of its path, and a content request in the log. *)
Theorem collected_files_come_from_the_tree o r remote :
  Subseq (map fileInfo (discoveredFiles o r remote))
         (listingEntries (rootListing remote))
  /\ forall data log f,
       fetchRepoData o r remote = (Returned data, log) ->
       In f (codeFiles data) ->
       In (path f, size f, ContentDecoded (content f)) (listingEntries (rootListing remote))
       /\ f = collect (path f) (size f) (content f)
       /\ In (ContentRequest (fileUrl o r (defaultBranchOf data) (path f)) (path f) (size f))
             log.
Proof.
  assert (H : forall db,
             let w := allCodeFiles o r remote (branchOrMain db)
                        [MetadataRequest (repoUrl o r)] in
             Subseq (map fileInfo (fst w)) (listingEntries (rootListing remote))
             /\ Forall (fun f => f = collect (path f) (size f) (content f)
                         /\ In (ContentRequest (fileUrl o r (branchOrMain db) (path f))
                                               (path f) (size f)) (snd w)) (fst w)).
  { intros db w. subst w. unfold allCodeFiles.
    destruct (walk_comesFrom o r (branchOrMain db) EmptyString (rootListing remote)
                [MetadataRequest (repoUrl o r)]) as (found & more & Hf & Hr & Hs & Ha).
    cbn [files requests app] in Hf, Hr. rewrite Hf, Hr. split; trivial.
    eapply Forall_impl; [|exact Ha]. intros f [Hc Hin]. split; trivial.
    right. now right. }
  split.
  - unfold discoveredFiles. destruct (metadata remote); try apply Subseq_nil_l;
      apply H.
  - intros data log f Hrun Hin.
    pose proof (codeFiles_incl _ _ _ _ _ Hrun f Hin) as Hfound.
    destruct (fetchRepoData_returned _ _ _ _ _ Hrun) as (db & Hmeta & -> & _).
    assert (Hbranch : defaultBranchOf data = branchOrMain db).
    { revert Hrun. unfold fetchRepoData. rewrite Hmeta.
      destruct (allCodeFiles _ _ _ _ _). now intros [= <-]. }
    unfold discoveredFiles in Hfound. rewrite Hmeta in Hfound.
    destruct (H db) as [Hsub Hall]. rewrite Hbranch.
    destruct (proj1 (Forall_forall _ _) Hall f Hfound) as [Hc Hreq].
    repeat split; trivial.
    apply (Subseq_In _ _ _ Hsub). now apply (in_map fileInfo).
Qed.

Lemma collected_files_come_from_the_tree_witness :
  Subseq (map fileInfo (discoveredFiles "o" "r" (Sample.scenarioA "a" "b" "c")))
         (listingEntries (rootListing (Sample.scenarioA "a" "b" "c")))
  /\ In ("README.md", 1024, ContentDecoded "a")
        (listingEntries (rootListing (Sample.scenarioA "a" "b" "c"))).
Proof.
  destruct (collected_files_come_from_the_tree "o" "r" (Sample.scenarioA "a" "b" "c"))
    as [H1 H2].
  split; [exact H1|].
  destruct (H2 _ _ (mkCodeFile "README.md" "a" 1024 (Some "Markdown")
                               false false true medium) eq_refl) as (H & _).
  - right; left; reflexivity.
  - exact H.
Defined.

(** ** What the truncation drops *)

Lemma StronglySorted_app_cross {A : Type} (R : A -> A -> Prop) l1 l2 :
  StronglySorted R (l1 ++ l2) ->
  forall x y, In x l1 -> In y l2 -> R x y.
Proof.
  induction l1 as [|a l1 IH]; intros H x y Hx Hy; [contradiction|].
  inversion H as [|? ? Hrest Ha]; subst. destruct Hx as [<-|Hx].
  - apply (proj1 (Forall_forall _ _) Ha). apply in_or_app. now right.
  - now apply IH.
Qed.

(** X6. The truncation to 500 files drops from the low end: the returned
    files and the dropped ones are together the files of the walk, the
    skipped count is the number of dropped files, and no dropped file is of
    a higher tier than a returned one. *)
Theorem truncation_drops_lowest_tiers o r remote data log :
  fetchRepoData o r remote = (Returned data, log) ->
  Permutation (codeFiles data ++ droppedFiles o r remote) (discoveredFiles o r remote)
  /\ filesSkipped data = Z.of_nat (List.length (droppedFiles o r remote))
  /\ forall kept dropped,
       In kept (codeFiles data) -> In dropped (droppedFiles o r remote) ->
       tierOrder kept dropped.
Proof.
  intros Hrun.
  destruct (fetchRepoData_returned _ _ _ _ _ Hrun) as (_ & _ & _ & Hfiles & _ & _ & Hskip).
  unfold droppedFiles. rewrite Hfiles in *.
  set (sorted := sort byPriority (discoveredFiles o r remote)) in *.
  split; [|split].
  - rewrite firstn_skipn. apply sort_permutation.
  - rewrite Hskip, <- (Permutation_length (sort_permutation byPriority _)).
    fold sorted. rewrite length_skipn, length_firstn. lia.
  - apply StronglySorted_app_cross. rewrite firstn_skipn. apply sort_tierOrder.
Qed.

Lemma truncation_drops_lowest_tiers_witness :
  exists data log,
    fetchRepoData "o" "r" (Sample.ok (Sample.styleSheets ++ [Sample.lateDir]))
    = (Returned data, log)
    /\ filesSkipped data = 1
    /\ map path (droppedFiles "o" "r" (Sample.ok (Sample.styleSheets ++ [Sample.lateDir])))
       = ["f499.css"].
Proof.
  pose (remote := Sample.ok (Sample.styleSheets ++ [Sample.lateDir])).
  assert (Hrun : fetchRepoData "o" "r" remote
                 = (fst (fetchRepoData "o" "r" remote), snd (fetchRepoData "o" "r" remote)))
    by now destruct (fetchRepoData "o" "r" remote).
  destruct (fst (fetchRepoData "o" "r" remote)) as [data|message] eqn:Hfst;
    [|vm_compute in Hfst; discriminate].
  exists data, (snd (fetchRepoData "o" "r" remote)). split; [exact Hrun|].
  destruct (truncation_drops_lowest_tiers "o" "r" remote data _ Hrun) as (_ & H & _).
  split; [|by_computation]. rewrite H. by_computation.
Defined.

(** ** The requests of an analysis *)

Lemma startsWith_append a b : Js.startsWith a (a ++ b) = true.
Proof.
  induction a as [|c a IH]; [reflexivity|]. cbn [append Js.startsWith].
  now rewrite Ascii.eqb_refl, IH.
Qed.

Lemma startsWith_same_front a x y :
  Js.startsWith (a ++ x) (a ++ y) = Js.startsWith x y.
Proof.
  induction a as [|c a IH]; [reflexivity|]. cbn [append Js.startsWith].
  now rewrite Ascii.eqb_refl, IH.
Qed.

Lemma contentsUrl_prefix o r b p :
  Js.startsWith (GITHUB_API_BASE ++ "/" ++ o ++ "/" ++ r ++ "/contents")
                (contentsUrl o r b p) = true.
Proof.
  unfold contentsUrl. destruct (Js.truthy p);
    now rewrite !startsWith_same_front.
Qed.

Lemma fileUrl_prefix o r b p :
  Js.startsWith (GITHUB_API_BASE ++ "/" ++ o ++ "/" ++ r ++ "/contents")
                (fileUrl o r b p) = true.
Proof. unfold fileUrl. now rewrite !startsWith_same_front. Qed.

Section RequestsOfTheWalk.

Variables (o r b : string).
Variable R : Request -> Prop.
Hypothesis content_ok : forall p sz, R (ContentRequest (fileUrl o r b p) p sz).
Hypothesis listing_ok : forall p, R (ListingRequest (contentsUrl o r b p)).

#[local] Abbreviation visit := (visit o r b).
#[local] Abbreviation walk := (fetchAllFilesRecursive o r b).

Lemma asksOnly_refl s : asksOnly R s s.
Proof. exists []. rewrite app_nil_r. split; [reflexivity | constructor]. Qed.

Lemma asksOnly_trans s1 s2 s3 :
  asksOnly R s1 s2 -> asksOnly R s2 s3 -> asksOnly R s1 s3.
Proof.
  intros (m1 & H1 & Hm1) (m2 & H2 & Hm2). exists (m1 ++ m2).
  rewrite H2, H1, app_assoc. split; [reflexivity | now apply Forall_app].
Qed.

Lemma forOf_asksOnly l :
  Forall (fun item => forall s, asksOnly R s (flowState (visit item s))) l ->
  forall s, asksOnly R s (forOf visit l s).
Proof.
  induction 1 as [|item rest Hitem _ IH]; intros s; cbn [forOf].
  - apply asksOnly_refl.
  - specialize (Hitem s). destruct (visit item s) as [s'|s']; cbn [flowState] in Hitem.
    + now apply asksOnly_trans with s'.
    + exact Hitem.
Qed.

Lemma visit_asksOnly item : forall s, asksOnly R s (flowState (visit item s)).
Proof.
  induction item as [name p sz response | type name p | name p | name p contents IH]
    using Item_nested_ind; intros s.
  - change (visit (FileItem name p sz response) s)
      with (visitFile o r b p sz response s).
    destruct (visitFile_cases o r b p sz response s)
      as [[-> _]|[[-> _]|[[-> _]|(_ & _ & _ & [(text & _ & ->)|[_ ->]])]]];
      cbn [flowState]; try apply asksOnly_refl;
      exists [ContentRequest (fileUrl o r b p) p sz]; cbn [requests];
      (split; [reflexivity | repeat constructor; apply content_ok]).
  - apply asksOnly_refl.
  - rewrite visit_dir. destruct (Js.has _ _); [apply asksOnly_refl|].
    rewrite mergeDir_state, walk_unfold. cbn [fst snd files requests].
    exists [ListingRequest (contentsUrl o r b p)]. cbn [requests].
    split; [reflexivity | repeat constructor; apply listing_ok].
  - rewrite visit_dir. destruct (Js.has _ _); [apply asksOnly_refl|].
    rewrite mergeDir_state, walk_unfold. cbn [fst snd files requests].
    set (start := mkWalk [] 0 _).
    destruct (forOf_asksOnly contents IH start) as (more & Hr & Hm).
    exists (ListingRequest (contentsUrl o r b p) :: more).
    cbn [requests] in *. rewrite Hr. subst start. cbn [requests].
    rewrite <- app_assoc. split; [reflexivity|]. constructor; [apply listing_ok | exact Hm].
Qed.

(** The log of a walk: the log it was given, the listing request, and
    requests of the walk. *)
Lemma walk_asksOnly p listing log :
  exists more,
    snd (walk p listing log) = log ++ ListingRequest (contentsUrl o r b p) :: more
    /\ Forall R more.
Proof.
  rewrite walk_unfold. cbn zeta. destruct listing as [contents|]; cbn [snd].
  - destruct (forOf_asksOnly contents
                (proj2 (Forall_forall _ _) (fun item _ => visit_asksOnly item))
                (mkWalk [] 0 (log ++ [ListingRequest (contentsUrl o r b p)])))
      as (more & Hr & Hm).
    exists more. cbn [requests] in *. rewrite Hr, <- app_assoc. now split.
  - exists []. cbn [requests]. split; [reflexivity | constructor].
Qed.

End RequestsOfTheWalk.

(** The collection asks the repository for its metadata and then for
    contents only. *)
Lemma fetchRepoData_requests o r remote :
  exists more,
    snd (fetchRepoData o r remote) = MetadataRequest (repoUrl o r) :: more
    /\ Forall (fun request =>
                 Js.startsWith (GITHUB_API_BASE ++ "/" ++ o ++ "/" ++ r ++ "/contents")
                               (requestUrl request) = true) more
    /\ match metadata remote with
       | MetaThrows _ | MetaNotOk _ _ => more = []
       | MetaOk default_branch | MetaOwnerless default_branch _ =>
           exists rest,
             more = ListingRequest (contentsUrl o r (branchOrMain default_branch)
                                                EmptyString) :: rest
       end.
Proof.
  assert (Hwalk : forall db,
    exists rest,
      snd (allCodeFiles o r remote (branchOrMain db) [MetadataRequest (repoUrl o r)])
      = MetadataRequest (repoUrl o r)
        :: ListingRequest (contentsUrl o r (branchOrMain db) EmptyString) :: rest
      /\ Forall (fun request =>
                   Js.startsWith (GITHUB_API_BASE ++ "/" ++ o ++ "/" ++ r ++ "/contents")
                                 (requestUrl request) = true)
                (ListingRequest (contentsUrl o r (branchOrMain db) EmptyString) :: rest)).
  { intros db. unfold allCodeFiles.
    destruct (walk_asksOnly o r (branchOrMain db)
                (fun request =>
                   Js.startsWith (GITHUB_API_BASE ++ "/" ++ o ++ "/" ++ r ++ "/contents")
                                 (requestUrl request) = true)
                (fun p sz => fileUrl_prefix o r (branchOrMain db) p)
                (fun p => contentsUrl_prefix o r (branchOrMain db) p)
                EmptyString (rootListing remote) [MetadataRequest (repoUrl o r)])
      as (rest & Hlog & Hrest).
    exists rest. split; [exact Hlog|]. constructor; [|exact Hrest].
    apply contentsUrl_prefix. }
  unfold fetchRepoData.
  destruct (metadata remote) as [message|status text|db|db message].
  - exists []. repeat split; constructor.
  - exists []. destruct (status =? 404); [|destruct (status =? 403)];
      repeat split; constructor.
  - destruct (Hwalk db) as (rest & Hlog & Hall).
    destruct (allCodeFiles _ _ _ _ _) as [walked log']. cbn [snd] in *.
    exists (ListingRequest (contentsUrl o r (branchOrMain db) EmptyString) :: rest).
    repeat split; trivial. now exists rest.
  - destruct (Hwalk db) as (rest & Hlog & Hall).
    destruct (allCodeFiles _ _ _ _ _) as [walked log']. cbn [snd] in *.
    exists (ListingRequest (contentsUrl o r (branchOrMain db) EmptyString) :: rest).
    repeat split; trivial. now exists rest.
Qed.

(** X7. An analysis addresses the repository that the URL names and no
    other: for a URL that does not parse it makes no request and shows the
    format error; otherwise its first request is for
    [https://api.github.com/repos/<owner>/<repo>] and every request of the
    walk is for an address below [.../<owner>/<repo>/contents].  When the metadata
    request throws or is refused it stays the only request and the error
    shown is not empty; when the metadata has no owner the error comes after
    the requests of the walk. *)
Theorem analysis_addresses_the_named_repository newURL network url :
  match parseGithubUrl newURL url with
  | None =>
      handleAnalyze newURL network url
      = (InvalidUrl "Invalid GitHub URL. Please use format: https://github.com/owner/repo",
         [])
  | Some ref =>
      exists outcome more,
        handleAnalyze newURL network url
        = (outcome,
           MetadataRequest ("https://api.github.com/repos/" ++ owner ref ++ "/" ++ repo ref)
           :: more)
        /\ Forall (fun request =>
                     Js.startsWith ("https://api.github.com/repos/" ++ owner ref ++ "/"
                                    ++ repo ref ++ "/contents")
                                   (requestUrl request) = true) more
        /\ match metadata (network (owner ref) (repo ref)) with
           | MetaThrows _ | MetaNotOk _ _ =>
               more = []
               /\ exists error, outcome = FetchError error /\ Js.truthy error = true
           | MetaOk _ => more <> [] /\ exists data, outcome = Fetched data
           | MetaOwnerless _ message =>
               more <> []
               /\ outcome = FetchError (if Js.truthy message then message
                                        else "An unexpected error occurred.")
           end
  end.
Proof.
  unfold handleAnalyze. destruct (parseGithubUrl newURL url) as [ref|]; [|reflexivity].
  set (o := owner ref). set (r := repo ref).
  destruct (fetchRepoData_requests o r (network o r)) as (more & Hlog & Hall & Hmore).
  destruct (fetchRepoData o r (network o r)) as [outcome log] eqn:Hrun.
  cbn [snd] in Hlog. subst log.
  assert (Hcase : match metadata (network o r) with
                  | MetaThrows message => outcome = Threw message
                  | MetaNotOk _ _ => exists message, outcome = Threw message
                                                     /\ Js.truthy message = true
                  | MetaOk _ => exists data, outcome = Returned data
                  | MetaOwnerless _ message => outcome = Threw message
                  end).
  { revert Hrun. unfold fetchRepoData.
    destruct (metadata (network o r)) as [message|status text|db|db message].
    - now intros [= <- _].
    - destruct (status =? 404); [|destruct (status =? 403)];
        intros [= <- _]; eexists; split; reflexivity.
    - destruct (allCodeFiles _ _ _ _ _). intros [= <- _]. eauto.
    - destruct (allCodeFiles _ _ _ _ _). now intros [= <- _]. }
  destruct (metadata (network o r)) as [message|status text|db|db message].
  - subst outcome more. eexists; exists []. split; [reflexivity|].
    split; [constructor|]. split; [reflexivity|]. eexists; split; [reflexivity|].
    now destruct message.
  - destruct Hcase as (message & -> & Hfull). subst more. eexists; exists [].
    split; [reflexivity|]. split; [constructor|]. split; [reflexivity|].
    eexists; split; [reflexivity|]. now rewrite Hfull.
  - destruct Hcase as (data & ->). destruct Hmore as (rest & ->).
    eexists; eexists. split; [reflexivity|]. split; [exact Hall|].
    split; [discriminate | eauto].
  - subst outcome. destruct Hmore as (rest & ->).
    eexists; eexists. split; [reflexivity|]. split; [exact Hall|].
    split; [discriminate | reflexivity].
Qed.

(** ** The structure for display *)

Lemma structureLine_weaken lo hi names lo' names' line :
  lo' <= lo -> incl names names' ->
  structureLine lo hi names line -> structureLine lo' hi names' line.
Proof.
  intros Hlo Hincl (depth & name & Hd & Hin & Hline).
  exists depth, name. repeat split; try lia; auto.
Qed.

Section StructureFacts.

Variables (o r b : string) (maxDepth : Z).

#[local] Abbreviation extends := (extends maxDepth).

Lemma extends_refl lo names acc : extends lo names acc acc.
Proof.
  exists [], []. rewrite !app_nil_r. destruct acc. repeat split; constructor.
Qed.

Lemma extends_trans lo names1 names2 acc1 acc2 acc3 :
  extends lo names1 acc1 acc2 -> extends lo names2 acc2 acc3 ->
  extends lo (names1 ++ names2) acc1 acc3.
Proof.
  intros (l1 & m1 & -> & Hl1 & Hm1) (l2 & m2 & -> & Hl2 & Hm2). cbn [fst snd].
  exists (l1 ++ l2), (m1 ++ m2). rewrite !app_assoc. repeat split.
  - apply Forall_app; split;
      (eapply Forall_impl; [|eassumption]); intros line;
      apply structureLine_weaken; try lia; intros x Hx; apply in_or_app; auto.
  - now apply Forall_app.
Qed.

Lemma fold_extends (f : Item -> list string * list Request -> list string * list Request)
    lo contents :
  Forall (fun item => forall acc, extends lo (namesOf item) acc (f item acc)) contents ->
  forall acc,
    extends lo (flat_map namesOf contents) acc (fold_left (fun a i => f i a) contents acc).
Proof.
  induction 1 as [|item rest Hitem _ IH]; intros acc; [apply extends_refl|].
  cbn [fold_left flat_map]. eapply extends_trans; [apply Hitem | apply IH].
Qed.

Lemma structureEntry_extends item :
  forall depth acc, depth < maxDepth ->
    extends depth (namesOf item) acc (structureEntry o r b maxDepth depth item acc).
Proof.
  induction item as [name p sz response|type name p|name p|name p contents IH]
    using Item_nested_ind; intros depth acc Hdepth.
  - exists [fileLine depth name], []. rewrite app_nil_r. repeat split; [|constructor].
    repeat constructor. exists depth, name. repeat split; try lia; [now left | now left].
  - exists [fileLine depth name], []. rewrite app_nil_r. repeat split; [|constructor].
    repeat constructor. exists depth, name. repeat split; try lia; [now left | now left].
  - cbn [structureEntry namesOf].
    destruct (Js.has SKIP_DIRECTORIES (Js.toLowerCase name)) eqn:Hskip;
      [apply extends_refl|].
    assert (Hline : structureLine depth maxDepth [name] (dirLine depth name)).
    { exists depth, name. repeat split; try lia; [now left | now right]. }
    destruct (depth <? maxDepth - 1) eqn:Hdeep.
    + apply Z.ltb_lt in Hdeep.
      destruct (maxDepth <=? depth + 1) eqn:Hcheck; [apply Z.leb_le in Hcheck; lia|].
      exists [dirLine depth name], [ListingRequest (contentsUrl o r b p)].
      repeat split; repeat constructor; trivial. now eexists.
    + exists [dirLine depth name], []. rewrite app_nil_r. repeat split; [|constructor].
      now repeat constructor.
  - cbn [structureEntry namesOf].
    destruct (Js.has SKIP_DIRECTORIES (Js.toLowerCase name)) eqn:Hskip;
      [apply extends_refl|].
    assert (Hline : structureLine depth maxDepth (name :: flat_map namesOf contents)
                                  (dirLine depth name)).
    { exists depth, name. repeat split; try lia; [now left | now right]. }
    destruct (depth <? maxDepth - 1) eqn:Hdeep.
    + apply Z.ltb_lt in Hdeep.
      destruct (maxDepth <=? depth + 1) eqn:Hcheck; [apply Z.leb_le in Hcheck; lia|].
      set (log := snd acc ++ _).
      assert (Hsub : extends (depth + 1) (flat_map namesOf contents) ([], log)
                       (fold_left (fun a i => structureEntry o r b maxDepth (depth + 1) i a)
                                  contents ([], log))).
      { apply (fold_extends (structureEntry o r b maxDepth (depth + 1))).
        eapply Forall_impl; [|exact IH]. intros item Hitem acc'. apply Hitem. lia. }
      destruct Hsub as (lines & more & -> & Hlines & Hmore). cbn [fst snd app].
      exists (dirLine depth name :: lines),
             (ListingRequest (contentsUrl o r b p) :: more).
      subst log. rewrite <- !app_assoc. repeat split.
      * constructor; trivial. eapply Forall_impl; [|exact Hlines]. intros line.
        apply structureLine_weaken; [lia | intros x Hx; now right].
      * constructor; trivial. now eexists.
    + exists [dirLine depth name], []. rewrite app_nil_r. repeat split; [|constructor].
      now repeat constructor.
Qed.

End StructureFacts.

Lemma fetchFileStructureRecursive_extends o r b maxDepth p listing currentDepth log :
  extends maxDepth currentDepth (listingNames listing) ([], log)
    (fetchFileStructureRecursive o r b maxDepth p listing currentDepth log).
Proof.
  unfold fetchFileStructureRecursive.
  destruct (maxDepth <=? currentDepth) eqn:Hdepth; [apply extends_refl|].
  apply Z.leb_gt in Hdepth. destruct listing as [contents|].
  - destruct (fold_extends maxDepth (structureEntry o r b maxDepth currentDepth)
                currentDepth contents) with
      (acc := (@nil string, log ++ [ListingRequest (contentsUrl o r b p)]))
      as (lines & more & -> & Hlines & Hmore).
    { apply Forall_forall. intros item _ acc. now apply structureEntry_extends. }
    cbn [fst snd app]. exists lines, (ListingRequest (contentsUrl o r b p) :: more).
    cbn [fst snd app]. rewrite <- app_assoc. repeat split; trivial.
    constructor; trivial. now eexists.
  - exists [], [ListingRequest (contentsUrl o r b p)]. repeat split; repeat constructor.
    now eexists.
Qed.

(** X8. Every line of the structure is the name of an entry of the tree,
    indented by twice its depth, which is at least the depth the walk
    started at and less than [maxDepth]; a directory line never carries a
    skip-listed name.  The walk makes listing requests only, after those
    made before, and none at all when it starts at [maxDepth] or deeper. *)
Theorem structure_lines_are_indented_names o r b maxDepth p listing currentDepth log :
  exists more,
    snd (fetchFileStructureRecursive o r b maxDepth p listing currentDepth log)
    = log ++ more
    /\ Forall isListingRequest more
    /\ Forall (structureLine currentDepth maxDepth (listingNames listing))
              (fst (fetchFileStructureRecursive o r b maxDepth p listing currentDepth log))
    /\ (maxDepth <= currentDepth ->
        more = []
        /\ fst (fetchFileStructureRecursive o r b maxDepth p listing currentDepth log) = []).
Proof.
  destruct (fetchFileStructureRecursive_extends o r b maxDepth p listing currentDepth log)
    as (lines & more & E & Hlines & Hmore).
  exists more. rewrite E. cbn [fst snd app]. repeat split; trivial.
  - apply (f_equal snd) in E. unfold fetchFileStructureRecursive in E.
    destruct (maxDepth <=? currentDepth) eqn:Hdepth; [|apply Z.leb_gt in Hdepth; lia].
    cbn [snd] in E. rewrite <- (app_nil_r log) in E at 1.
    now apply app_inv_head in E.
  - apply (f_equal fst) in E. unfold fetchFileStructureRecursive in E.
    destruct (maxDepth <=? currentDepth) eqn:Hdepth; [|apply Z.leb_gt in Hdepth; lia].
    now cbn [fst app] in E.
Qed.

(** ** [detectCICDConfigs] *)

Lemma startsWith_empty needle :
  Js.startsWith needle EmptyString = negb (Js.truthy needle).
Proof. now destruct needle. Qed.

Lemma startsWith_before_feed needle : onOneLine needle = true ->
  forall a rest,
    Js.startsWith needle (a ++ String (ascii_of_nat 10) rest) = Js.startsWith needle a.
Proof.
  induction needle as [|c needle IH]; intros Hline a rest; [now destruct a|].
  cbn [onOneLine] in Hline. apply andb_true_iff in Hline as [Hc Hline].
  destruct a as [|d a]; cbn [append Js.startsWith].
  - apply negb_true_iff in Hc. now rewrite Hc.
  - now rewrite IH.
Qed.

(** A needle without a line feed is found in one of two lines or not at
    all. *)
Lemma includes_two_lines needle :
  onOneLine needle = true -> Js.truthy needle = true ->
  forall a rest,
    Js.includes needle (a ++ Js.newline ++ rest)
    = Js.includes needle a || Js.includes needle rest.
Proof.
  intros Hline Hfull a rest. unfold Js.newline. cbn [append].
  induction a as [|d a IH].
  - pose proof (startsWith_before_feed needle Hline EmptyString rest) as E.
    cbn [append] in *. rewrite includes_cons, E.
    destruct needle; [discriminate|]. reflexivity.
  - pose proof (startsWith_before_feed needle Hline (String d a) rest) as E.
    cbn [append] in *. rewrite !includes_cons, IH, E.
    now rewrite orb_assoc.
Qed.

Lemma includes_join needle :
  onOneLine needle = true -> Js.truthy needle = true ->
  forall lines,
    Js.includes needle (Js.join Js.newline lines) = existsb (Js.includes needle) lines.
Proof.
  intros Hline Hfull. induction lines as [|line [|next rest] IH].
  - destruct needle; [discriminate | reflexivity].
  - cbn [Js.join existsb]. now rewrite orb_false_r.
  - change (Js.join Js.newline (line :: next :: rest))
      with (line ++ Js.newline ++ Js.join Js.newline (next :: rest))%string.
    rewrite includes_two_lines, IH by assumption. reflexivity.
Qed.

Lemma fold_push_filter {A : Type} (keep : A -> bool) l : forall found,
  fold_left (fun cs x => if keep x then cs ++ [x] else cs) l found
  = found ++ filter keep l.
Proof.
  induction l as [|x l IH]; intros found; cbn [fold_left filter];
    [now rewrite app_nil_r|].
  rewrite IH. destruct (keep x); [now rewrite <- app_assoc | reflexivity].
Qed.

Lemma detectCICDConfigs_configs fileStructure :
  configs (detectCICDConfigs fileStructure)
  = filter (fun pattern => existsb (Js.includes pattern) fileStructure) cicdPatterns.
Proof.
  unfold detectCICDConfigs. cbn [configs]. rewrite fold_push_filter. cbn [app].
  apply filter_ext_in. intros pattern Hin. apply includes_join;
    repeat (destruct Hin as [<-|Hin]; [reflexivity|]); contradiction.
Qed.

(** X9. The detection of CI configurations works line by line although it
    searches the joined structure: a pattern is reported exactly when one
    line of the structure contains it, the reported patterns keep the order
    of the pattern list, and [hasCICD] says whether there is one. *)
Theorem cicd_detection_is_linewise fileStructure :
  configs (detectCICDConfigs fileStructure)
  = filter (fun pattern => existsb (Js.includes pattern) fileStructure) cicdPatterns
  /\ (hasCICD (detectCICDConfigs fileStructure) = true
      <-> exists pattern line,
            In pattern cicdPatterns /\ In line fileStructure
            /\ Js.includes pattern line = true).
Proof.
  pose proof (detectCICDConfigs_configs fileStructure) as Hconfigs.
  split; [exact Hconfigs|].
  assert (Hhas : hasCICD (detectCICDConfigs fileStructure)
                 = (0 <? List.length (configs (detectCICDConfigs fileStructure)))%nat)
    by reflexivity.
  rewrite Hhas, Hconfigs, Nat.ltb_lt. split.
  - destruct (filter _ cicdPatterns) as [|pattern rest] eqn:E; [simpl; lia|]. intros _.
    assert (Hin : In pattern (filter (fun pattern =>
                    existsb (Js.includes pattern) fileStructure) cicdPatterns))
      by (rewrite E; now left).
    apply filter_In in Hin as [Hin Hex]. apply existsb_exists in Hex as (line & Hl & Hinc).
    eauto.
  - intros (pattern & line & Hin & Hl & Hinc).
    assert (Hfound : In pattern (filter (fun pattern =>
                       existsb (Js.includes pattern) fileStructure) cicdPatterns)).
    { apply filter_In. split; trivial. apply existsb_exists. eauto. }
    destruct (filter _ cicdPatterns); [contradiction | simpl; lia].
Qed.

Lemma startsWith_true p : forall s,
  Js.startsWith p s = true -> exists t, s = (p ++ t)%string.
Proof.
  induction p as [|c p IH]; intros s H; [now exists s|].
  destruct s as [|d s]; [discriminate|]. cbn [Js.startsWith] in H.
  apply andb_true_iff in H as [Hc H]. apply Ascii.eqb_eq in Hc as ->.
  destruct (IH s H) as (t & ->). now exists t.
Qed.

Lemma includes_true sub s :
  Js.includes sub s = true -> exists a t, s = (a ++ sub ++ t)%string.
Proof.
  induction s as [|d s IH].
  - cbn [Js.includes]. rewrite orb_false_r. intros H.
    destruct (startsWith_true _ _ H) as (t & ->). now exists EmptyString, t.
  - rewrite includes_cons. intros H. apply orb_true_iff in H as [H|H].
    + destruct (startsWith_true _ _ H) as (t & ->). now exists EmptyString, t.
    + destruct (IH H) as (a & t & ->). now exists (String d a), t.
Qed.

(** In a string that ends with its only [/], nothing follows a [/]. *)
Lemma slash_at_end x : Js.includes "/" x = false ->
  forall u v, (x ++ "/" = u ++ "/" ++ v)%string -> v = EmptyString.
Proof.
  induction x as [|c x IH]; intros Hx u v E.
  - destruct u as [|d u]; cbn [append] in E; [congruence|].
    injection E as _ E. destruct u; discriminate.
  - rewrite includes_char in Hx. apply orb_false_iff in Hx as [Hc Hx].
    destruct u as [|d u]; cbn [append] in E.
    + injection E as E _. subst c. discriminate.
    + injection E as _ E. now apply (IH Hx u v).
Qed.

Lemma includes_slash_repeat n : Js.includes "/" (Js.repeatNat "  " n) = false.
Proof. induction n as [|n IH]; [reflexivity|]. cbn [Js.repeatNat append]. now rewrite !includes_char, IH. Qed.

(** A line for a name without [/] does not hold [.github/workflows]. *)
Lemma workflows_not_in_line depth name :
  Js.includes "/" name = false ->
  Js.includes ".github/workflows" (fileLine depth name) = false
  /\ Js.includes ".github/workflows" (dirLine depth name) = false.
Proof.
  intros Hname.
  assert (Hplain : forall sign, Js.includes "/" sign = false ->
            Js.includes "/" (Js.repeat "  " depth ++ sign ++ " " ++ name) = false).
  { intros sign Hsign. unfold Js.repeat.
    now rewrite !includes_char_append, includes_slash_repeat, Hsign, Hname. }
  split.
  - destruct (Js.includes ".github/workflows" (fileLine depth name)) eqn:E; trivial.
    destruct (includes_true _ _ E) as (a & t & Hline).
    specialize (Hplain pageSign eq_refl). unfold fileLine in Hline.
    rewrite Hline, !includes_char_append in Hplain.
    rewrite orb_true_r in Hplain. discriminate.
  - destruct (Js.includes ".github/workflows" (dirLine depth name)) eqn:E; trivial.
    destruct (includes_true _ _ E) as (a & t & Hline).
    assert (Hend : ("workflows" ++ t)%string = EmptyString).
    { apply (slash_at_end _ (Hplain folderSign eq_refl) (a ++ ".github")%string).
      transitivity (dirLine depth name);
        [unfold dirLine; now rewrite !append_assoc|].
      rewrite Hline, append_assoc. reflexivity. }
    discriminate.
Qed.

(** X10. The workflow directory is never reported: the structure lists
    entry names, one a line, and as long as no entry name holds a [/], no
    line holds [.github/workflows], whatever the repository contains. *)
Theorem workflows_are_never_detected o r b maxDepth p listing currentDepth log :
  Forall (fun name => Js.includes "/" name = false) (listingNames listing) ->
  ~ In ".github/workflows"
       (configs (detectCICDConfigs
          (fst (fetchFileStructureRecursive o r b maxDepth p listing currentDepth log)))).
Proof.
  intros Hnames Hin. rewrite detectCICDConfigs_configs in Hin.
  apply filter_In in Hin as [_ Hex]. apply existsb_exists in Hex as (line & Hline & Hinc).
  destruct (fetchFileStructureRecursive_extends o r b maxDepth p listing currentDepth log)
    as (lines & more & E & Hshape & _).
  rewrite E in Hline. cbn [fst app] in Hline.
  apply (proj1 (Forall_forall _ _) Hshape) in Hline as (depth & name & _ & Hname & Hcase).
  apply (proj1 (Forall_forall _ _) Hnames) in Hname.
  destruct (workflows_not_in_line depth name Hname) as [Hfile Hdir].
  destruct Hcase as [->|[-> _]]; congruence.
Qed.

Lemma workflows_are_never_detected_witness :
  configs (detectCICDConfigs
    (fst (fetchFileStructureRecursive "o" "r" "main" 5 EmptyString
            (Some withWorkflow) 0 [])))
  = [".travis.yml"]
  /\ ~ In ".github/workflows"
        (configs (detectCICDConfigs
           (fst (fetchFileStructureRecursive "o" "r" "main" 5 EmptyString
                   (Some withWorkflow) 0 [])))).
Proof.
  split; [reflexivity|].
  apply (workflows_are_never_detected "o" "r" "main" 5 EmptyString (Some withWorkflow) 0 []).
  repeat constructor.
Defined.

(** ** The selection of [analyzeRepository] *)

Lemma mapSet_addKey k v m : map fst (mapSet k v m) = addKey (map fst m) k.
Proof.
  unfold addKey. induction m as [|[k0 v0] rest IH]; [reflexivity|].
  cbn [mapSet map fst existsb]. rewrite (String.eqb_sym k k0).
  destruct (String.eqb k0 k); cbn [orb map fst]; [reflexivity|].
  rewrite IH. now destruct (existsb (String.eqb k) (map fst rest)).
Qed.

Lemma filter_filter {A : Type} (f g : A -> bool) l :
  filter f (filter g l) = filter (fun x => g x && f x) l.
Proof.
  induction l as [|x l IH]; [reflexivity|]. cbn [filter].
  destruct (g x); cbn [filter andb]; [destruct (f x)|]; congruence.
Qed.

Lemma fold_addKey l : forall ks,
  fold_left addKey l ks
  = ks ++ filter (fun k => negb (existsb (String.eqb k) ks)) (firstOccurrences l).
Proof.
  induction l as [|x rest IH]; intros ks; cbn [fold_left firstOccurrences filter];
    [now rewrite app_nil_r|].
  rewrite IH, filter_filter. unfold addKey.
  destruct (existsb (String.eqb x) ks) eqn:Hx; cbn [negb].
  - f_equal. apply filter_ext_in. intros y _.
    destruct (String.eqb x y) eqn:E; [|reflexivity].
    apply String.eqb_eq in E. subst y. now rewrite Hx.
  - rewrite <- app_assoc. cbn [app]. do 2 f_equal. apply filter_ext. intros y.
    rewrite existsb_app. cbn [existsb]. rewrite orb_false_r, negb_orb.
    rewrite (String.eqb_sym y x). apply andb_comm.
Qed.

Lemma newMap_keys entries :
  map fst (newMap entries) = firstOccurrences (map fst entries).
Proof.
  unfold newMap.
  assert (H : forall m, map fst (fold_left (fun m e => mapSet (fst e) (snd e) m) entries m)
                        = fold_left addKey (map fst entries) (map fst m)).
  { induction entries as [|e rest IH]; intros m; [reflexivity|].
    cbn [fold_left map]. now rewrite IH, mapSet_addKey. }
  rewrite H, fold_addKey. cbn [map app existsb negb].
  clear. induction (firstOccurrences (map fst entries)); cbn [filter]; congruence.
Qed.

Lemma mapSet_keyed k v m :
  path v = k -> Forall (fun e => path (snd e) = fst e) m ->
  Forall (fun e => path (snd e) = fst e) (mapSet k v m).
Proof.
  intros Hv. induction 1 as [|[k0 v0] rest He Hrest IH]; cbn [mapSet].
  - now repeat constructor.
  - destruct (String.eqb k0 k) eqn:E; constructor; trivial.
    apply String.eqb_eq in E. now subst.
Qed.

Lemma newMap_keyed l :
  Forall (fun e => path (snd e) = fst e) (newMap (map (fun f => (path f, f)) l)).
Proof.
  unfold newMap.
  assert (H : forall m, Forall (fun e => path (snd e) = fst e) m ->
            Forall (fun e => path (snd e) = fst e)
                   (fold_left (fun m e => mapSet (fst e) (snd e) m)
                              (map (fun f => (path f, f)) l) m)).
  { induction l as [|f l IH]; intros m Hm; [exact Hm|].
    cbn [map fold_left fst snd]. apply IH. now apply mapSet_keyed. }
  apply H. constructor.
Qed.

Lemma firstOccurrences_length l :
  (List.length (firstOccurrences l) <= List.length l)%nat.
Proof.
  induction l as [|x l IH]; cbn [firstOccurrences List.length]; [lia|].
  pose proof (filter_length_le (fun y => negb (String.eqb x y)) (firstOccurrences l)). lia.
Qed.

Lemma In_firstn {A : Type} (x : A) n l : In x (firstn n l) -> In x l.
Proof.
  intros Hin. rewrite <- (firstn_skipn n l). apply in_or_app. now left.
Qed.

Lemma selectedFiles_incl fs : incl (selectedFiles fs) fs.
Proof.
  unfold selectedFiles. intros f Hin.
  repeat (apply in_app_or in Hin as [Hin|Hin]);
    apply In_firstn in Hin; apply filter_In in Hin; tauto.
Qed.

Lemma selectedFiles_length fs : (List.length (selectedFiles fs) <= 120)%nat.
Proof.
  unfold selectedFiles. rewrite !length_app, !length_firstn. lia.
Qed.

Lemma NoDup_map_inv' {A B : Type} (f : A -> B) l : NoDup (map f l) -> NoDup l.
Proof.
  induction l as [|x l IH]; cbn [map]; intros H; [constructor|].
  inversion H as [|? ? Hnot Hrest]; subst. constructor; auto.
  intros Hin. apply Hnot. now apply in_map.
Qed.

(** X11. The selection is held in a map from paths: its files come in the
    order in which their paths were first selected, each a file of the
    given list, at most 120 of them and no more than the list has. *)
Theorem selection_keeps_first_positions fs :
  map path (uniqueFiles fs) = firstOccurrences (map path (selectedFiles fs))
  /\ incl (uniqueFiles fs) fs
  /\ (List.length (uniqueFiles fs) <= 120)%nat
  /\ (List.length (uniqueFiles fs) <= List.length fs)%nat.
Proof.
  destruct (uniqueFiles_last_wins fs) as [Hnd Hlast].
  assert (Hincl : incl (uniqueFiles fs) fs).
  { intros f Hin. destruct (Hlast f Hin) as (before & after & E & _).
    apply selectedFiles_incl. rewrite E. apply in_or_app. right. now left. }
  assert (Hkeys : map fst (newMap (map (fun f => (path f, f)) (selectedFiles fs)))
                  = firstOccurrences (map path (selectedFiles fs))).
  { rewrite newMap_keys, map_map. reflexivity. }
  assert (Hlen : List.length (uniqueFiles fs)
                 = List.length (firstOccurrences (map path (selectedFiles fs)))).
  { rewrite <- Hkeys. unfold uniqueFiles. now rewrite !length_map. }
  split; [|split; [exact Hincl|split]].
  - rewrite <- Hkeys. unfold uniqueFiles. rewrite map_map.
    apply map_ext_in. intros e He.
    apply (proj1 (Forall_forall _ _) (newMap_keyed (selectedFiles fs)) e He).
  - rewrite Hlen. pose proof (firstOccurrences_length (map path (selectedFiles fs))).
    rewrite length_map in *. pose proof (selectedFiles_length fs). lia.
  - apply NoDup_incl_length; trivial. now apply NoDup_map_inv' with (f := path).
Qed.

(** ** [formatCodeFiles] *)

Lemma fileSection_length file : (0 < String.length (fileSection file))%nat.
Proof.
  unfold fileSection. rewrite length_append.
  change (String.length Js.newline) with 1%nat. lia.
Qed.

Lemma sectionChars_nonneg fs : 0 <= sectionChars fs.
Proof. induction fs as [|f fs IH]; cbn [sectionChars fold_right]; [lia|]. fold (sectionChars fs). lia. Qed.

Lemma sectionChars_cons f fs :
  sectionChars (f :: fs) = Z.of_nat (String.length (fileSection f)) + sectionChars fs.
Proof. reflexivity. Qed.

Lemma sectionChars_firstn_mono fs : forall j k, (j <= k)%nat ->
  sectionChars (firstn j fs) <= sectionChars (firstn k fs).
Proof.
  induction fs as [|f fs IH]; intros j k Hjk; [now rewrite !firstn_nil|].
  destruct j as [|j]; [apply sectionChars_nonneg|].
  destruct k as [|k]; [lia|]. cbn [firstn]. rewrite !sectionChars_cons.
  specialize (IH j k). lia.
Qed.

Lemma format_loop maxChars fs : forall total acc,
  exists k,
    (k <= List.length fs)%nat
    /\ formatted (forOf (formatStep maxChars) fs (mkFormatting total acc))
       = acc ++ map fileSection (firstn k fs)
    /\ ((0 < k)%nat -> total + sectionChars (firstn k fs) <= maxChars)
    /\ ((k < List.length fs)%nat -> maxChars < total + sectionChars (firstn (S k) fs)).
Proof.
  induction fs as [|f fs IH]; intros total acc.
  - exists 0%nat. cbn [forOf formatted firstn map List.length]. rewrite app_nil_r.
    repeat split; lia.
  - cbn [forOf]. unfold formatStep at 1. cbn [totalChars formatted].
    pose proof (fileSection_length f) as Hpos.
    pose proof (sectionChars_nonneg []) as Hzero.
    destruct (maxChars <=? total) eqn:Hfull.
    { apply Z.leb_le in Hfull. exists 0%nat.
      cbn [formatted firstn map List.length]. rewrite app_nil_r.
      repeat split; try lia. intros _. rewrite sectionChars_cons. lia. }
    destruct (maxChars <? total + Z.of_nat (String.length (fileSection f))) eqn:Hfit.
    { apply Z.ltb_lt in Hfit. exists 0%nat.
      cbn [formatted firstn map List.length]. rewrite app_nil_r.
      repeat split; try lia. intros _. rewrite sectionChars_cons. lia. }
    apply Z.ltb_ge in Hfit.
    destruct (IH (total + Z.of_nat (String.length (fileSection f)))
                 (acc ++ [fileSection f])) as (k & Hk & Hsections & Hfits & Hnext).
    exists (S k). rewrite !firstn_cons. cbn [map List.length].
    rewrite Hsections, <- app_assoc.
    repeat split; try lia.
    + intros _. rewrite sectionChars_cons. destruct k as [|k].
      * cbn [firstn sectionChars fold_right]. lia.
      * assert (Hk' : (0 < S k)%nat) by lia. specialize (Hfits Hk'). lia.
    + intros Hlt. rewrite sectionChars_cons.
      assert (Hlt' : (k < List.length fs)%nat) by lia. specialize (Hnext Hlt'). lia.
Qed.

(** X12. [formatCodeFiles] keeps the sections of the longest beginning of
    the files whose sections together have no more than [maxChars]
    characters. *)
Theorem format_keeps_longest_fitting_prefix fs maxChars :
  0 <= maxChars ->
  exists k,
    (k <= List.length fs)%nat
    /\ formattedSections fs maxChars = map fileSection (firstn k fs)
    /\ forall j, (j <= List.length fs)%nat ->
         (sectionChars (firstn j fs) <= maxChars <-> (j <= k)%nat).
Proof.
  intros Hmax. destruct (format_loop maxChars fs 0 []) as (k & Hk & Hsections & Hfits & Hnext).
  exists k. repeat split; trivial.
  - intros Hj. destruct (Nat.le_gt_cases j k) as [|Hgt]; trivial.
    assert (Hlt : (k < List.length fs)%nat) by lia. specialize (Hnext Hlt).
    pose proof (sectionChars_firstn_mono fs (S k) j). lia.
  - intros Hjk. pose proof (sectionChars_firstn_mono fs j k Hjk).
    destruct k as [|k].
    + assert (j = 0%nat) as -> by lia. cbn [firstn sectionChars fold_right]. lia.
    + assert (Hk' : (0 < S k)%nat) by lia. specialize (Hfits Hk'). lia.
Qed.

Lemma format_keeps_longest_fitting_prefix_witness :
  exists k,
    (k <= 2)%nat
    /\ formattedSections
         [ mkCodeFile "a.ts" "let a" 5 (Some "TypeScript") false false false high;
           mkCodeFile "b.ts" "let b" 5 (Some "TypeScript") false false false high ] 100
       = map fileSection
           (firstn k
              [ mkCodeFile "a.ts" "let a" 5 (Some "TypeScript") false false false high;
                mkCodeFile "b.ts" "let b" 5 (Some "TypeScript") false false false high ])
    /\ forall j, (j <= 2)%nat ->
         (sectionChars
            (firstn j
               [ mkCodeFile "a.ts" "let a" 5 (Some "TypeScript") false false false high;
                 mkCodeFile "b.ts" "let b" 5 (Some "TypeScript") false false false high ])
          <= 100 <-> (j <= k)%nat).
Proof.
  apply (format_keeps_longest_fitting_prefix
           [ mkCodeFile "a.ts" "let a" 5 (Some "TypeScript") false false false high;
             mkCodeFile "b.ts" "let b" 5 (Some "TypeScript") false false false high ] 100).
  lia.
Defined.

Lemma join_length lines :
  Z.of_nat (String.length (Js.join Js.newline lines))
  = fold_right (fun line n => Z.of_nat (String.length line) + n) 0 lines
    + Z.of_nat (pred (List.length lines)).
Proof.
  induction lines as [|line [|next rest] IH]; [reflexivity| |].
  - cbn [Js.join fold_right List.length pred]. lia.
  - change (Js.join Js.newline (line :: next :: rest))
      with (line ++ Js.newline ++ Js.join Js.newline (next :: rest))%string.
    rewrite !length_append, !Nat2Z.inj_add, IH.
    change (String.length Js.newline) with 1%nat.
    cbn [fold_right List.length pred]. lia.
Qed.

Lemma sectionChars_map fs :
  fold_right (fun line n => Z.of_nat (String.length line) + n) 0 (map fileSection fs)
  = sectionChars fs.
Proof. induction fs as [|f fs IH]; cbn [map fold_right sectionChars]; [reflexivity|]. fold (sectionChars fs). now rewrite IH. Qed.

(** X13. The text that [formatCodeFiles] returns is longer than its
    sections by the line feeds between them, which the budget does not
    count: it can exceed [maxChars] by one character less than it has
    sections.  The code that [analyzeRepository] puts in the prompt has at
    most 150119 characters. *)
Theorem formatted_text_length fs maxChars :
  0 <= maxChars ->
  Z.of_nat (String.length (formatCodeFiles fs maxChars))
  = fold_right (fun line n => Z.of_nat (String.length line) + n) 0
               (formattedSections fs maxChars)
    + Z.of_nat (pred (List.length (formattedSections fs maxChars)))
  /\ Z.of_nat (String.length (formatCodeFiles fs maxChars))
     <= maxChars + Z.of_nat (pred (List.length (formattedSections fs maxChars)))
  /\ (List.length (formattedSections fs maxChars) <= List.length fs)%nat
  /\ Z.of_nat (String.length (codeContentForAnalysis fs)) <= 150119.
Proof.
  intros Hmax.
  assert (Hgeneral : forall files budget, 0 <= budget ->
    Z.of_nat (String.length (formatCodeFiles files budget))
    <= budget + Z.of_nat (pred (List.length (formattedSections files budget)))
    /\ (List.length (formattedSections files budget) <= List.length files)%nat).
  { intros files budget Hbudget. unfold formatCodeFiles. rewrite join_length.
    destruct (format_loop budget files 0 []) as (k & Hk & Hsections & Hfits & _).
    change (formatted (forOf (formatStep budget) files (mkFormatting 0 [])))
      with (formattedSections files budget) in Hsections.
    cbn [app] in Hsections. rewrite Hsections, sectionChars_map, length_map, length_firstn.
    split; [|lia]. destruct k as [|k]; [cbn [firstn sectionChars fold_right]; lia|].
    assert (Hk' : (0 < S k)%nat) by lia. specialize (Hfits Hk'). lia. }
  destruct (Hgeneral fs maxChars Hmax) as [Hlen Hcount].
  repeat split; trivial.
  - unfold formatCodeFiles. apply join_length.
  - unfold codeContentForAnalysis.
    destruct (Hgeneral (uniqueFiles fs) 150000) as [Htext Hsections]; [lia|].
    assert (Hunique : (List.length (uniqueFiles fs) <= 120)%nat).
    { unfold uniqueFiles. rewrite length_map.
      rewrite <- (length_map fst), newMap_keys.
      pose proof (firstOccurrences_length
                    (map fst (map (fun f => (path f, f)) (selectedFiles fs)))) as H.
      rewrite !length_map in H. pose proof (selectedFiles_length fs). lia. }
    lia.
Qed.

Lemma formatted_text_length_witness :
  (String.length
     (formatCodeFiles
        [ mkCodeFile "a.ts" "let a" 5 (Some "TypeScript") false false false high;
          mkCodeFile "b.ts" "let b" 5 (Some "TypeScript") false false false high ] 128)
   = 129)%nat
  /\ Z.of_nat (String.length
       (formatCodeFiles
          [ mkCodeFile "a.ts" "let a" 5 (Some "TypeScript") false false false high;
            mkCodeFile "b.ts" "let b" 5 (Some "TypeScript") false false false high ] 128))
     <= 128 + 1.
Proof.
  split; [reflexivity|].
  apply (formatted_text_length
           [ mkCodeFile "a.ts" "let a" 5 (Some "TypeScript") false false false high;
             mkCodeFile "b.ts" "let b" 5 (Some "TypeScript") false false false high ] 128).
  lia.
Defined.
